(** * pod-forward-backend: a shallow embedding of [main.go]

    The backend keeps a registry of port-forward sessions, resolves each
    inbound request to a session, and relays the request to the session's
    local port, rewriting the request path on the way in and the
    [Location] header on the way out.

    Go strings are byte strings and are modelled by [string]; [int] values
    are modelled by [Z]; Go maps by [gmap].  Calls into the Go standard
    library and into client-go whose result the program only inspects
    ([url.Parse], [URL.Query], the Kubernetes client, the upstream HTTP
    round trip, the clock) are inputs of the model. *)

From Stdlib Require Import ZArith Ascii String DecimalString.
From Stdlib Require DecimalPos DecimalZ.
From stdpp Require Import base option list strings gmap.

Local Open Scope Z_scope.

(* stdpp keeps [simpl] from unfolding the append of strings; the proofs
   below compute with literal prefixes. *)
#[local] Arguments String.append !s1 s2 : simpl nomatch.

(** ** The pieces of the Go library that the program computes with *)

(** [strings.HasPrefix(s, prefix)]. *)
Fixpoint strings_HasPrefix (s prefix : string) {struct prefix} : bool :=
  match prefix, s with
  | EmptyString, _ => true
  | String _ _, EmptyString => false
  | String p prefix', String c s' =>
      if Ascii.eqb c p then strings_HasPrefix s' prefix' else false
  end.

(** [s[n:]] for [n] within the string. *)
Fixpoint string_drop (n : nat) (s : string) : string :=
  match n, s with
  | O, _ => s
  | S _, EmptyString => EmptyString
  | S n', String _ s' => string_drop n' s'
  end.

(** [strings.TrimPrefix(s, prefix)]. *)
Definition strings_TrimPrefix (s prefix : string) : string :=
  if strings_HasPrefix s prefix then string_drop (String.length prefix) s else s.

(** [strings.Contains(s, substr)]. *)
Fixpoint strings_Contains (s substr : string) : bool :=
  strings_HasPrefix s substr ||
  match s with
  | EmptyString => false
  | String _ s' => strings_Contains s' substr
  end.

(** The bounds of a 64-bit [int]. *)
Definition minInt : Z := - 2 ^ 63.
Definition maxInt : Z := 2 ^ 63 - 1.

Definition digit_value (c : ascii) : option Z :=
  let n := Z.of_nat (nat_of_ascii c) in
  if (48 <=? n) && (n <=? 57) then Some (n - 48) else None.

Fixpoint digits_value (acc : Z) (s : string) : option Z :=
  match s with
  | EmptyString => Some acc
  | String c s' =>
      match digit_value c with
      | Some d => digits_value (acc * 10 + d) s'
      | None => None
      end
  end.

(** [strconv.Atoi(s)]: an optional sign, then one or more decimal digits,
    the value within the range of [int]; [None] is a returned error. *)
Definition strconv_Atoi (s : string) : option Z :=
  let '(neg, body) :=
    match s with
    | String "-" s' => (true, s')
    | String "+" s' => (false, s')
    | _ => (false, s)
    end in
  match body with
  | EmptyString => None
  | _ =>
      match digits_value 0 body with
      | Some n =>
          let v := if neg : bool then - n else n in
          if (minInt <=? v) && (v <=? maxInt) then Some v else None
      | None => None
      end
  end.

(** The verb [%d] of [fmt.Sprintf] on an [int]. *)
Definition fmt_d (n : Z) : string := NilZero.string_of_int (Z.to_int n).

(** The characters that cannot be written inside a string literal. *)
Definition newline : string := String (ascii_of_nat 10) EmptyString.
Definition dquote : string := String (ascii_of_nat 34) EmptyString.

(** ** HTTP headers and query values

    [http.Header] and [url.Values] are both [map[string][]string].  Header
    keys are the canonical keys that the HTTP client and server produce, so
    canonicalisation is the identity on them. *)

Abbreviation Header := (gmap string (list string)).
Abbreviation Values := (gmap string (list string)).

(** [Header.Get(key)]: the first value of the key, or the empty string. *)
Definition Header_Get (h : Header) (key : string) : string :=
  match h !! key with
  | Some (v :: _) => v
  | _ => EmptyString
  end.

(** [Values.Get(key)]. *)
Definition Values_Get (v : Values) (key : string) : string :=
  match v !! key with
  | Some (x :: _) => x
  | _ => EmptyString
  end.

(** [Header.Set(key, value)]. *)
Definition Header_Set (h : Header) (key value : string) : Header :=
  <[key := [value]]> h.

(** [Header.Add(key, value)]. *)
Definition Header_Add (h : Header) (key value : string) : Header :=
  <[key := default [] (h !! key) ++ [value]]> h.

(** The loop [for key, values := range src { if skip(key) { continue };
    for _, value := range values { dst.Add(key, value) } }], over the
    entries of [src] in the order [range] yields them. *)
Definition copyHeaders (skip : string → bool)
    (src : list (string * list string)) (dst : Header) : Header :=
  foldl (λ h kv, if skip kv.1 then h
                 else foldl (λ h' value, Header_Add h' kv.1 value) h kv.2)
        dst src.

(** The fields of [url.URL] that the program reads. *)
Record URL := mkURL { URL_Path : string; URL_RawQuery : string }.

(** ** Requests and responses *)

Record Request := mkRequest {
  Method : string;
  Path : string;            (* r.URL.Path *)
  RawQuery : string;        (* r.URL.RawQuery *)
  ReqHeader : Header;       (* r.Header *)
  ReqBody : string          (* r.Body *)
}.

(** What the handler has written to its [http.ResponseWriter] when it
    returns; the same record describes the upstream's [http.Response]. *)
Record Response := mkResponse {
  StatusCode : Z;
  RespHeader : Header;
  Body : string
}.

(** [http.Error(w, msg, code)] on a writer with no header set yet. *)
Definition http_Error (msg : string) (code : Z) : Response :=
  {| StatusCode := code;
     RespHeader := {[ "Content-Type" := ["text/plain; charset=utf-8"];
                      "X-Content-Type-Options" := ["nosniff"] ]};
     Body := msg +:+ newline |}.

Definition StatusOK : Z := 200.
Definition StatusBadRequest : Z := 400.
Definition StatusNotFound : Z := 404.
Definition StatusInternalServerError : Z := 500.
Definition StatusBadGateway : Z := 502.
Definition MethodGet : string := "GET".

(** [http.NotFound(w, r)]. *)
Definition http_NotFound : Response := http_Error "404 page not found" StatusNotFound.

(** ** Errors

    A Go [error] is modelled by its message; a call that returns
    [(T, error)] by a [result T]. *)

Inductive result (A : Type) : Type :=
  | Ok (a : A)
  | Err (msg : string).
Arguments Ok {A} a.
Arguments Err {A} msg.

#[global] Instance result_ret : MRet result := λ A a, Ok a.
#[global] Instance result_bind : MBind result := λ A B f m,
  match m with
  | Ok a => f a
  | Err msg => Err msg
  end.

(** [if err != nil { return nil, fmt.Errorf(prefix + "%v", err) }]. *)
Definition wrap_err (prefix : string) (err : option string) : result unit :=
  match err with
  | Some e => Err (prefix +:+ e)
  | None => Ok tt
  end.

(** ** Sessions and the registry *)

(** An instant of [time.Time], counted from the zero value [time.Time{}];
    [time.Now()] is always after it. *)
Definition zeroTime : Z := 0.
Definition Time_After (t u : Z) : bool := u <? t.

(** A [*portforward.PortForwarder]: the identity of one tunnel. *)
Definition PortForwarder := nat.

(** [portforward.ForwardedPort]. *)
Record ForwardedPort := mkForwardedPort { Local : Z; Remote : Z }.

(** [PortForwardSession].  Its mutex and its stop channel (which the
    program never closes) carry no data.  Every session is reached through
    its entry of [activeSessions], so a write to a field of the session is
    a write to that entry. *)
Record PortForwardSession := mkSession {
  Namespace : string;
  Pod : string;
  Port : Z;
  LocalPort : Z;
  PF : option PortForwarder;      (* [None] is the nil pointer *)
  LastUsed : Z
}.

#[global] Instance ForwardedPort_eq_dec : EqDecision ForwardedPort.
Proof. solve_decision. Defined.
#[global] Instance PortForwardSession_eq_dec : EqDecision PortForwardSession.
Proof. solve_decision. Defined.

(** The two package-level maps. *)
Record Registry := mkRegistry {
  activeSessions : gmap string PortForwardSession;
  localPortToSession : gmap Z string
}.

Definition emptyRegistry : Registry := mkRegistry ∅ ∅.

(** [session.LastUsed = now] for the session stored under [key]. *)
Definition set_LastUsed (now : Z) (s : PortForwardSession) : PortForwardSession :=
  {| Namespace := Namespace s; Pod := Pod s; Port := Port s;
     LocalPort := LocalPort s; PF := PF s; LastUsed := now |}.

Definition touch (key : string) (now : Z) (st : Registry) : Registry :=
  {| activeSessions := alter (set_LastUsed now) key (activeSessions st);
     localPortToSession := localPortToSession st |}.

(** ** The environment of one call

    What the cluster, the tunnel library and the clock do is not decided by
    the program; each call of a handler receives it as an input. *)

(** The arm of the [select] in [getOrCreateSession] that fires. *)
Inductive SelectCase : Type :=
  | CaseReady                            (* <-readyChan *)
  | CaseErr (err : option string)        (* err := <-errChan, nil or not *)
  | CaseTimeout.                         (* <-time.After(5 * time.Second) *)

Record Cluster := mkCluster {
  (* the error of clientset.CoreV1().Pods(namespace).Get(ctx, pod, opts) *)
  Pods_Get : string → string → option string;
  (* the error of spdy.RoundTripperFor(config) *)
  spdy_RoundTripperFor : option string;
  (* portforward.New for the pod's portforward sub-resource and the ports *)
  portforward_New : string → string → list string → result PortForwarder;
  (* the arm taken by the select that waits for the forwarder *)
  select_case : SelectCase;
  (* pf.GetPorts() after the select *)
  pf_GetPorts : result (list ForwardedPort)
}.

Record World := mkWorld {
  cluster : Cluster;
  (* the n-th reading of time.Now() during the call *)
  time_Now : nat → Z;
  (* the order in which range yields the entries of activeSessions *)
  range_sessions : list (string * PortForwardSession) → list (string * PortForwardSession);
  (* the error of http.NewRequest(method, targetURL, body) *)
  http_NewRequest : string → string → option string;
  (* client.Do on the request built from method, target, header and body *)
  client_Do : string → string → Header → string → result Response
}.

(** [range] yields every entry once, in an order of its own. *)
Definition range_ok (w : World) : Prop :=
  ∀ l, range_sessions w l ≡ₚ l.

(** ** The program *)

(** The string constants of [fmt.Sprintf("%s/%s:%d", namespace, pod, port)]. *)
Definition sessionKey_of (namespace pod : string) (port : Z) : string :=
  namespace +:+ "/" +:+ pod +:+ ":" +:+ fmt_d port.

(** [getOrCreateSession], lines 186 to 199: the session stored under the
    key, when its forwarder is not nil. *)
Definition getOrCreateSession_lookup (sessionKey : string) (st : Registry)
    : option PortForwardSession :=
  match activeSessions st !! sessionKey with
  | Some session => if PF session is Some _ then Some session else None
  | None => None
  end.

(** [getOrCreateSession], lines 201 to 265: from the pod lookup to the new
    session value. *)
Definition getOrCreateSession_establish (c : Cluster) (now : Z)
    (namespace pod : string) (port : Z) : result PortForwardSession :=
  _ ← wrap_err "error al obtener pod: " (Pods_Get c namespace pod);
  _ ← wrap_err "error al configurar transport: " (spdy_RoundTripperFor c);
  pf ← match portforward_New c namespace pod ["0:" +:+ fmt_d port] with
       | Ok pf => Ok pf
       | Err e => Err ("error al crear port-forward: " +:+ e)
       end;
  _ ← match select_case c with
      | CaseReady => Ok tt
      | CaseErr err => wrap_err "error al iniciar port-forward: " err
      | CaseTimeout => Err "timeout al iniciar port-forward"
      end;
  match pf_GetPorts c with
  | Ok (p :: _) =>
      Ok {| Namespace := namespace; Pod := pod; Port := port;
            LocalPort := Local p; PF := Some pf; LastUsed := now |}
  | _ => Err "error al obtener puerto local"
  end.

(** [getOrCreateSession], lines 267 to 274: the two insertions. *)
Definition register_session (sessionKey : string) (session : PortForwardSession)
    (st : Registry) : Registry :=
  {| activeSessions := <[sessionKey := session]> (activeSessions st);
     localPortToSession := <[LocalPort session := sessionKey]> (localPortToSession st) |}.

Definition getOrCreateSession (c : Cluster) (now : Z)
    (sessionKey namespace pod : string) (port : Z) (st : Registry)
    : Registry * result PortForwardSession :=
  match getOrCreateSession_lookup sessionKey st with
  | Some session => (touch sessionKey now st, Ok (set_LastUsed now session))
  | None =>
      match getOrCreateSession_establish c now namespace pod port with
      | Ok session => (register_session sessionKey session st, Ok session)
      | Err e => (st, Err e)
      end
  end.

(** The goroutine started at line 277, once [errChan] delivers. *)
Definition session_cleanup (sessionKey : string) (localPort : Z) (st : Registry) : Registry :=
  {| activeSessions := delete sessionKey (activeSessions st);
     localPortToSession := delete localPort (localPortToSession st) |}.

(** *** The select of [getOrCreateSession] in time

    [Second] and [fiveSeconds] are [time.Second] and [5 * time.Second] in
    nanoseconds.  [ready_at] and [err_at] are the delays, counted from the
    moment the select starts, after which [readyChan] and [errChan] can be
    received from ([None]: never); [select_fires] relates them to the arm
    that is taken and to the time the select has waited.  Arms that become
    ready together are chosen between freely, as Go does. *)

Definition Second : Z := 1000000000.
Definition fiveSeconds : Z := 5 * Second.

Inductive select_fires (ready_at : option Z) (err_at : option (Z * option string))
    : SelectCase → Z → Prop :=
  | fires_ready t :
      ready_at = Some t → t ≤ fiveSeconds →
      (∀ t' err, err_at = Some (t', err) → t ≤ t') →
      select_fires ready_at err_at CaseReady t
  | fires_err t err :
      err_at = Some (t, err) → t ≤ fiveSeconds →
      (∀ t', ready_at = Some t' → t ≤ t') →
      select_fires ready_at err_at (CaseErr err) t
  | fires_timeout :
      (∀ t, ready_at = Some t → fiveSeconds ≤ t) →
      (∀ t err, err_at = Some (t, err) → fiveSeconds ≤ t) →
      select_fires ready_at err_at CaseTimeout fiveSeconds.

Section Backend.

(** [url.Parse]: the path and the raw query of the parsed URL, [None] when
    it returns an error. *)
Variable url_Parse : string → option URL.

(** [r.URL.Query()] as a function of [r.URL.RawQuery]. *)
Variable URL_Query : string → Values.

(** *** [proxyHTTP] *)

(** Lines 310 to 321: the path requested from the pod. *)
Definition proxyHTTP_path (path : string) : string :=
  if String.eqb path "/forward" || String.eqb path "/api/v1/extensions/pod-forward/forward"
  then "/"
  else if strings_HasPrefix path "/api/v1/extensions/pod-forward/" then
    let path' := strings_TrimPrefix path "/api/v1/extensions/pod-forward" in
    if String.eqb path' EmptyString then "/" else path'
  else path.

(** Lines 323 to 326. *)
Definition proxyHTTP_targetURL (r : Request) (localPort : Z) : string :=
  let targetURL := "http://localhost:" +:+ fmt_d localPort +:+ proxyHTTP_path (Path r) in
  if String.eqb (RawQuery r) EmptyString then targetURL
  else targetURL +:+ "?" +:+ RawQuery r.

(** Lines 338 to 346: the header of the request sent to the pod. *)
Definition skip_request_header (key : string) : bool :=
  String.eqb key "Connection" || String.eqb key "Upgrade" || String.eqb key "Host".

Definition proxyHTTP_requestHeader (h : Header) : Header :=
  copyHeaders skip_request_header (map_to_list h) ∅.

(** Lines 370 to 384: the value written for a non-empty [Location]. *)
Definition proxyHTTP_location (locationHeader : string) : string :=
  if strings_HasPrefix locationHeader "/" then
    "/api/v1/extensions/pod-forward" +:+ locationHeader
  else if strings_HasPrefix locationHeader "http://"
          || strings_HasPrefix locationHeader "https://" then
    match url_Parse locationHeader with
    | Some parsedURL =>
        let location := "/api/v1/extensions/pod-forward" +:+ URL_Path parsedURL in
        if String.eqb (URL_RawQuery parsedURL) EmptyString then location
        else location +:+ "?" +:+ URL_RawQuery parsedURL
    | None => locationHeader
    end
  else locationHeader.

Definition skip_response_header (key : string) : bool :=
  String.eqb key "Connection" || String.eqb key "Upgrade" || String.eqb key "Location".

(** Lines 366 to 401: the header of the proxied response, from the header
    of the pod's response; [src] lists the entries of the latter in the
    order [range] yields them. *)
Definition proxyHTTP_copyResponseHeader (h : Header)
    (src : list (string * list string)) : Header :=
  let locationHeader := Header_Get h "Location" in
  let w := if String.eqb locationHeader EmptyString then ∅
           else Header_Set ∅ "Location" (proxyHTTP_location locationHeader) in
  copyHeaders skip_response_header src w.

Definition proxyHTTP_responseHeader (h : Header) : Header :=
  proxyHTTP_copyResponseHeader h (map_to_list h).

Definition proxyHTTP (w : World) (r : Request) (localPort : Z) : Response :=
  let targetURL := proxyHTTP_targetURL r localPort in
  match http_NewRequest w (Method r) targetURL with
  | Some err =>
      http_Error ("Error al crear petición: " +:+ err) StatusInternalServerError
  | None =>
      match client_Do w (Method r) targetURL
              (proxyHTTP_requestHeader (ReqHeader r)) (ReqBody r) with
      | Err err =>
          http_Error ("Error al realizar petición: " +:+ err) StatusBadGateway
      | Ok resp =>
          {| StatusCode := StatusCode resp;
             RespHeader := proxyHTTP_responseHeader (RespHeader resp);
             Body := Body resp |}
      end
  end.

(** *** [serveForwardPage] *)

Definition serveForwardPage_body (namespace pod port : string) : string :=
  "<!DOCTYPE html>" +:+ newline +:+
  "<html>" +:+ newline +:+
  "<head>" +:+ newline +:+
  "    <title>Port Forward</title>" +:+ newline +:+
  "    <meta charset=" +:+ dquote +:+ "utf-8" +:+ dquote +:+ ">" +:+ newline +:+
  "</head>" +:+ newline +:+
  "<body>" +:+ newline +:+
  "    <h1>Port Forward Activo</h1>" +:+ newline +:+
  "    <p>El port-forward está activo. Puedes acceder a la aplicación del pod directamente.</p>" +:+ newline +:+
  "    <p>Parámetros: namespace=" +:+ namespace +:+ ", pod=" +:+ pod +:+ ", port=" +:+ port +:+ "</p>" +:+ newline +:+
  "</body>" +:+ newline +:+
  "</html>".

Definition serveForwardPage (r : Request) : Response :=
  let q := URL_Query (RawQuery r) in
  {| StatusCode := StatusOK;
     RespHeader := Header_Set ∅ "Content-Type" "text/html; charset=utf-8";
     Body := serveForwardPage_body (Values_Get q "namespace") (Values_Get q "pod")
                                   (Values_Get q "port") |}.

(** *** [handlePortForward] *)

(** Lines 121 to 130: one iteration of the scan for the most recently used
    session, on the pair ([mostRecentTime], [activeSession]). *)
Definition scan_step (acc : Z * option (string * PortForwardSession))
    (kv : string * PortForwardSession) : Z * option (string * PortForwardSession) :=
  if bool_decide (PF kv.2 ≠ None) && Time_After (LastUsed kv.2) acc.1
  then (LastUsed kv.2, Some kv)
  else acc.

Definition scan_sessions (l : list (string * PortForwardSession))
    : option (string * PortForwardSession) :=
  (foldl scan_step (zeroTime, None) l).2.

(** The test of line 117. *)
Definition parameter_missing (r : Request) : bool :=
  let q := URL_Query (RawQuery r) in
  String.eqb (Values_Get q "namespace") EmptyString
  || String.eqb (Values_Get q "pod") EmptyString
  || String.eqb (Values_Get q "port") EmptyString.

(** The session that fallback resolution selects. *)
Definition fallback_choice (w : World) (st : Registry)
    : option (string * PortForwardSession) :=
  scan_sessions (range_sessions w (map_to_list (activeSessions st))).

(** Line 149. *)
Definition is_forward_entry (r : Request) : bool :=
  (String.eqb (Path r) "/forward"
   || strings_HasPrefix (Path r) "/api/v1/extensions/pod-forward/forward")
  && String.eqb (Method r) MethodGet.

Definition handlePortForward (w : World) (r : Request) (st : Registry)
    : Registry * Response :=
  let q := URL_Query (RawQuery r) in
  let namespace := Values_Get q "namespace" in
  let pod := Values_Get q "pod" in
  let portStr := Values_Get q "port" in
  if String.eqb namespace EmptyString || String.eqb pod EmptyString
     || String.eqb portStr EmptyString then
    match scan_sessions (range_sessions w (map_to_list (activeSessions st))) with
    | Some (key, activeSession) =>
        (touch key (time_Now w 0) st, proxyHTTP w r (LocalPort activeSession))
    | None =>
        if is_forward_entry r then (st, serveForwardPage r)
        else (st, http_Error
                    "Faltan parámetros requeridos: namespace, pod, port. No hay sesión activa."
                    StatusBadRequest)
    end
  else
    match strconv_Atoi portStr with
    | None => (st, http_Error ("Puerto inválido: " +:+ portStr) StatusBadRequest)
    | Some port =>
        let sessionKey := sessionKey_of namespace pod port in
        match getOrCreateSession (cluster w) (time_Now w 0)
                sessionKey namespace pod port st with
        | (st', Err err) =>
            (st', http_Error ("Error al crear port-forward: " +:+ err)
                    StatusInternalServerError)
        | (st', Ok session) =>
            (touch sessionKey (time_Now w 1) st', proxyHTTP w r (LocalPort session))
        end
    end.

(** *** The handlers registered by [main] *)

(** The handler of [/health]. *)
Definition main_health : Response :=
  {| StatusCode := StatusOK; RespHeader := ∅;
     Body := "{" +:+ dquote +:+ "status" +:+ dquote +:+ ":" +:+ dquote +:+ "ok"
             +:+ dquote +:+ "}" +:+ newline |}.

(** The destination of a request that reaches the handler of [/]. *)
Definition is_forward_like (path : string) : bool :=
  strings_Contains path "/forward"
  || strings_HasPrefix path "/api/v1/extensions/pod-forward/".

(** The handler of [/], which serves every path that no other pattern
    matches. *)
Definition main_root (w : World) (r : Request) (st : Registry) : Registry * Response :=
  if String.eqb (Path r) "/" then
    (st, {| StatusCode := StatusOK; RespHeader := ∅;
            Body := "Pod Forward Backend - Path: " +:+ Path r +:+ newline |})
  else if is_forward_like (Path r) then handlePortForward w r st
  else (st, http_NotFound).

(** *** The registries the program reaches

    The registry is empty when the process starts; it changes when a
    handler serves a request, in a world whose clock reads times after the
    zero time, and when the cleanup goroutine of a session runs. *)
Inductive reachable : Registry → Prop :=
  | reach_start : reachable emptyRegistry
  | reach_forward w r st :
      reachable st → (∀ n, zeroTime < time_Now w n) →
      reachable (handlePortForward w r st).1
  | reach_root w r st :
      reachable st → (∀ n, zeroTime < time_Now w n) →
      reachable (main_root w r st).1
  | reach_cleanup sessionKey localPort st :
      reachable st → reachable (session_cleanup sessionKey localPort st).

End Backend.

(** ** Two calls of [getOrCreateSession] at the same time

    A call runs through four regions: the lookup under the read lock
    (lines 186 to 199), the establishment of the tunnel, which holds no
    lock (lines 201 to 265), and the two insertions, each under its write
    lock (lines 267 to 269 and 272 to 274).  A region is one step, and the
    steps of concurrent calls interleave.  The program takes its locks
    region by region, so every interleaving of these steps is one of its
    executions. *)

Inductive Pc : Type :=
  | AtLookup
  | AtEstablish
  | AtInsertSession (session : PortForwardSession)
  | AtInsertPort (session : PortForwardSession)
  | Returned (r : result PortForwardSession).

(** The arguments of a call, with the environment it meets. *)
Record Call := mkCall {
  call_cluster : Cluster;
  call_now : Z;
  call_key : string;
  call_namespace : string;
  call_pod : string;
  call_port : Z
}.

(** The shared state: the registry, and the sessions whose tunnel has been
    established so far. *)
Record System := mkSystem {
  registry : Registry;
  established : list PortForwardSession
}.

Definition call_step (c : Call) (pc : Pc) (sys : System) : Pc * System :=
  match pc with
  | AtLookup =>
      match getOrCreateSession_lookup (call_key c) (registry sys) with
      | Some session =>
          (Returned (Ok (set_LastUsed (call_now c) session)),
           {| registry := touch (call_key c) (call_now c) (registry sys);
              established := established sys |})
      | None => (AtEstablish, sys)
      end
  | AtEstablish =>
      match getOrCreateSession_establish (call_cluster c) (call_now c)
              (call_namespace c) (call_pod c) (call_port c) with
      | Ok session =>
          (AtInsertSession session,
           {| registry := registry sys; established := session :: established sys |})
      | Err e => (Returned (Err e), sys)
      end
  | AtInsertSession session =>
      (AtInsertPort session,
       {| registry :=
            {| activeSessions := <[call_key c := session]> (activeSessions (registry sys));
               localPortToSession := localPortToSession (registry sys) |};
          established := established sys |})
  | AtInsertPort session =>
      (Returned (Ok session),
       {| registry :=
            {| activeSessions := activeSessions (registry sys);
               localPortToSession :=
                 <[LocalPort session := call_key c]> (localPortToSession (registry sys)) |};
          established := established sys |})
  | Returned r => (Returned r, sys)
  end.

(** [n] steps of one call. *)
Fixpoint call_steps (n : nat) (c : Call) (pc : Pc) (sys : System) : Pc * System :=
  match n with
  | O => (pc, sys)
  | S n' => let '(pc', sys') := call_step c pc sys in call_steps n' c pc' sys'
  end.

(** Two calls and a schedule: [false] lets the first call take a step,
    [true] the second. *)
Record Config := mkConfig { pc0 : Pc; pc1 : Pc; shared : System }.

Definition sched_step (c0 c1 : Call) (cfg : Config) (second : bool) : Config :=
  if second then
    let '(pc', sys') := call_step c1 (pc1 cfg) (shared cfg) in
    {| pc0 := pc0 cfg; pc1 := pc'; shared := sys' |}
  else
    let '(pc', sys') := call_step c0 (pc0 cfg) (shared cfg) in
    {| pc0 := pc'; pc1 := pc1 cfg; shared := sys' |}.

Definition run_schedule (c0 c1 : Call) (schedule : list bool) (sys : System) : Config :=
  foldl (sched_step c0 c1) {| pc0 := AtLookup; pc1 := AtLookup; shared := sys |} schedule.

(** ** Predicates on the registry *)

(** A session is live when its forwarder is not nil. *)
Definition live (s : PortForwardSession) : Prop := PF s ≠ None.

(** Every stored session was stamped by [time.Now()], which is after the
    zero time. *)
Definition stamped (st : Registry) : Prop :=
  map_Forall (λ _ s, zeroTime < LastUsed s) (activeSessions st).

(** What holds of [mostRecentTime] and [activeSession] once the loop has
    gone through the entries [seen]. *)
Definition scan_acc_ok (seen : list (string * PortForwardSession))
    (acc : Z * option (string * PortForwardSession)) : Prop :=
  zeroTime ≤ acc.1
  ∧ (∀ kv, kv ∈ seen → live kv.2 → LastUsed kv.2 ≤ acc.1)
  ∧ match acc.2 with
    | Some kv => kv ∈ seen ∧ live kv.2 ∧ LastUsed kv.2 = acc.1
    | None => acc.1 = zeroTime
    end.

(** ** Instances of the environment

    Concrete library functions and worlds, on which the statements below
    are evaluated. *)

(** [strings.Cut(s, sep)] for a one-byte separator. *)
Fixpoint strings_Cut (sep : ascii) (s : string) : string * option string :=
  match s with
  | EmptyString => (EmptyString, None)
  | String c s' =>
      if Ascii.eqb c sep then (EmptyString, Some s')
      else let '(before, after) := strings_Cut sep s' in (String c before, after)
  end.

(** What [url.Parse] returns for [scheme://authority/path?query#fragment]
    when the URL has no escapes, no user information and no control
    bytes: the fragment, the scheme and the authority are cut off. *)
Definition split_url (rawURL : string) : option URL :=
  let '(u, _) := strings_Cut "#" rawURL in
  let '(_, rest) := strings_Cut ":" u in
  let '(rest, query) := strings_Cut "?" (default u rest) in
  let path :=
    if strings_HasPrefix rest "//" then
      match (strings_Cut "/" (string_drop 2 rest)).2 with
      | Some p => String "/" p
      | None => EmptyString
      end
    else rest in
  Some {| URL_Path := path; URL_RawQuery := default EmptyString query |}.

(** What [URL.Query] returns for a query [k1=v1&k2=v2...] without escapes. *)
Fixpoint split_query_fuel (fuel : nat) (query : string) : Values :=
  match fuel with
  | O => ∅
  | S fuel' =>
      let '(item, rest) := strings_Cut "&" query in
      let '(key, value) := strings_Cut "=" item in
      let m := match rest with
               | Some rest' => split_query_fuel fuel' rest'
               | None => ∅
               end in
      if String.eqb item EmptyString then m
      else <[key := default EmptyString value :: default [] (m !! key)]> m
  end.

Definition split_query (query : string) : Values :=
  split_query_fuel (S (String.length query)) query.

(** A cluster in which the pod exists and the tunnel becomes ready, with
    forwarder [pf] listening on [localPort]. *)
Definition ready_cluster (pf : PortForwarder) (localPort remote : Z) : Cluster :=
  {| Pods_Get := λ _ _, None;
     spdy_RoundTripperFor := None;
     portforward_New := λ _ _ _, Ok pf;
     select_case := CaseReady;
     pf_GetPorts := Ok [mkForwardedPort localPort remote] |}.

(** A cluster whose [portforward.New] refuses the ports it is given. *)
Definition refusing_cluster (msg : string) : Cluster :=
  {| Pods_Get := λ _ _, None;
     spdy_RoundTripperFor := None;
     portforward_New := λ _ _ _, Err msg;
     select_case := CaseTimeout;
     pf_GetPorts := Err "listeners not ready" |}.

(** A world whose pod answers every request with [resp]. *)
Definition answering_world (c : Cluster) (now : Z) (resp : Response) : World :=
  {| cluster := c;
     time_Now := λ n, now + Z.of_nat n;
     range_sessions := λ l, l;
     http_NewRequest := λ _ _, None;
     client_Do := λ _ _ _ _, Ok resp |}.

Definition plain_response : Response :=
  {| StatusCode := StatusOK; RespHeader := ∅; Body := "hello" |}.

Definition get_request (path query : string) : Request :=
  {| Method := MethodGet; Path := path; RawQuery := query;
     ReqHeader := ∅; ReqBody := EmptyString |}.

Definition redirect_response (locations : list string) : Response :=
  {| StatusCode := 302; RespHeader := {[ "Location" := locations ]};
     Body := EmptyString |}.

Definition redirect_world (locations : list string) : World :=
  answering_world (ready_cluster 1%nat 40001 80) 100 (redirect_response locations).

Definition session_a : PortForwardSession :=
  {| Namespace := "ns1"; Pod := "p1"; Port := 80; LocalPort := 40001;
     PF := Some 1%nat; LastUsed := 100 |}.

Definition session_b : PortForwardSession :=
  {| Namespace := "ns2"; Pod := "p2"; Port := 3000; LocalPort := 40002;
     PF := Some 2%nat; LastUsed := 200 |}.

Definition one_session : Registry :=
  register_session "ns1/p1:80" session_a emptyRegistry.

(** Two worlds, each with a tunnel of its own that becomes ready. *)
Definition first_world : World :=
  answering_world (ready_cluster 1%nat 40001 80) 99 plain_response.

Definition second_world : World :=
  answering_world (ready_cluster 2%nat 40002 3000) 199 plain_response.

(** The registry after a request for ns1/p1:80 served in the first world
    and a request for ns2/p2:3000 served in the second. *)
Definition two_sessions : Registry :=
  (handlePortForward split_url split_query second_world
     (get_request "/forward" "namespace=ns2&pod=p2&port=3000")
     (handlePortForward split_url split_query first_world
        (get_request "/forward" "namespace=ns1&pod=p1&port=80") emptyRegistry).1).1.

(** A world that yields the entries of the registry in reverse. *)
Definition reversing_world : World :=
  {| cluster := ready_cluster 3%nat 40003 80;
     time_Now := λ n, 300 + Z.of_nat n;
     range_sessions := reverse;
     http_NewRequest := λ _ _, None;
     client_Do := λ _ _ _ _, Ok plain_response |}.

Definition idle_world : World :=
  answering_world (ready_cluster 1%nat 40001 80) 100 plain_response.

Definition racing_call (pf : PortForwarder) (localPort now : Z) : Call :=
  {| call_cluster := ready_cluster pf localPort 80; call_now := now;
     call_key := "ns1/p1:80"; call_namespace := "ns1"; call_pod := "p1";
     call_port := 80 |}.

(** ** Further predicates and environments *)

(** Two values of one session: they differ in the last-used time at
    most. *)
Definition same_tunnel (s s' : PortForwardSession) : Prop :=
  Namespace s' = Namespace s ∧ Pod s' = Pod s ∧ Port s' = Port s
  ∧ LocalPort s' = LocalPort s ∧ PF s' = PF s.

(** Every session is live and stored under the key of its identity. *)
Definition keyed_live (st : Registry) : Prop :=
  ∀ key s, activeSessions st !! key = Some s →
           PF s ≠ None ∧ key = sessionKey_of (Namespace s) (Pod s) (Port s).

(** The identity of a session that a request can name: a namespace and a
    pod that are not empty, and a port that fits an [int]. *)
Definition identity_ok (s : PortForwardSession) : Prop :=
  Namespace s ≠ EmptyString ∧ Pod s ≠ EmptyString ∧ minInt ≤ Port s ≤ maxInt.


(** What holds of the scan after the entries [seen], with the place of
    the selected entry: every live entry before it was used strictly
    earlier. *)
Definition scan_first_ok (seen : list (string * PortForwardSession))
    (acc : Z * option (string * PortForwardSession)) : Prop :=
  (∀ x, x ∈ seen → live x.2 → LastUsed x.2 ≤ acc.1)
  ∧ match acc.2 with
    | Some kv =>
        acc.1 = LastUsed kv.2
        ∧ ∃ before after, seen = before ++ kv :: after
            ∧ ∀ x, x ∈ before → live x.2 → LastUsed x.2 < LastUsed kv.2
    | None => True
    end.

(** The byte [c] occurs in [s]. *)
Fixpoint has_byte (c : ascii) (s : string) : bool :=
  match s with
  | EmptyString => false
  | String c' s' => Ascii.eqb c' c || has_byte c s'
  end.

(** The world [w] with another cluster, and with another pod behind the
    tunnel. *)
Definition with_cluster (c : Cluster) (w : World) : World :=
  {| cluster := c; time_Now := time_Now w; range_sessions := range_sessions w;
     http_NewRequest := http_NewRequest w; client_Do := client_Do w |}.

Definition with_upstream (newRequest : string → string → option string)
    (do : string → string → Header → string → result Response) (w : World) : World :=
  {| cluster := cluster w; time_Now := time_Now w; range_sessions := range_sessions w;
     http_NewRequest := newRequest; client_Do := do |}.

(** A world whose pod cannot be reached. *)
Definition unreachable_world : World :=
  with_upstream (λ _ _, None) (λ _ _ _ _, Err "connection refused")
    (answering_world (ready_cluster 1%nat 40001 80) 100 plain_response).

(** * Properties *)

(** ** Strings *)

Lemma strings_HasPrefix_app (prefix rest : string) :
  strings_HasPrefix (prefix +:+ rest) prefix = true.
Proof.
  induction prefix as [|c prefix IH]; simpl; [done|].
  by rewrite Ascii.eqb_refl.
Qed.

Lemma strings_HasPrefix_inv (s prefix : string) :
  strings_HasPrefix s prefix = true → ∃ rest, s = prefix +:+ rest.
Proof.
  revert s. induction prefix as [|p prefix IH]; intros s H.
  - by exists s.
  - destruct s as [|c s]; simpl in H; [done|].
    destruct (Ascii.eqb c p) eqn:Hc; [|done].
    apply Ascii.eqb_eq in Hc as ->.
    destruct (IH s H) as [rest ->]. by exists rest.
Qed.

Lemma string_drop_app (prefix rest : string) :
  string_drop (String.length prefix) (prefix +:+ rest) = rest.
Proof. induction prefix as [|c prefix IH]; simpl; [by destruct rest|done]. Qed.

Lemma strings_TrimPrefix_app (prefix rest : string) :
  strings_TrimPrefix (prefix +:+ rest) prefix = rest.
Proof.
  unfold strings_TrimPrefix.
  by rewrite strings_HasPrefix_app, string_drop_app.
Qed.

Lemma eqb_app_same (prefix a b : string) :
  String.eqb (prefix +:+ a) (prefix +:+ b) = String.eqb a b.
Proof.
  induction prefix as [|c prefix IH]; simpl; [done|].
  by rewrite Ascii.eqb_refl.
Qed.

(** A string that starts with [http://] or [https://] does not start with
    a slash. *)
Lemma http_prefix_not_slash (s : string) :
  strings_HasPrefix s "http://" || strings_HasPrefix s "https://" = true →
  strings_HasPrefix s "/" = false.
Proof.
  destruct s as [|c s]; [done|].
  intros H. simpl in *.
  destruct (Ascii.eqb c "/") eqn:Hc; [|done].
  apply Ascii.eqb_eq in Hc as ->. done.
Qed.

Lemma HasPrefix_nonempty (s prefix : string) :
  strings_HasPrefix s prefix = true → prefix ≠ EmptyString → String.eqb s EmptyString = false.
Proof. destruct s, prefix; done. Qed.

(** [strings.Contains] holds exactly of the strings that have the
    substring somewhere inside. *)
Lemma strings_Contains_spec (s substr : string) :
  strings_Contains s substr = true ↔ ∃ before after, s = before +:+ substr +:+ after.
Proof.
  split.
  - induction s as [|c s IH]; simpl; intros H.
    + rewrite orb_false_r in H. apply strings_HasPrefix_inv in H as [rest ->].
      by exists EmptyString, rest.
    + apply orb_true_iff in H as [H|H].
      * apply strings_HasPrefix_inv in H as [rest ->]. by exists EmptyString, rest.
      * destruct (IH H) as (before & after & ->). by exists (String c before), after.
  - intros (before & after & ->).
    induction before as [|c before IH]; simpl.
    + destruct (substr +:+ after) eqn:Heq; simpl; rewrite <- Heq;
        by rewrite strings_HasPrefix_app.
    + rewrite IH. apply orb_true_r.
Qed.

(** What [strconv.Atoi] accepts fits an [int]. *)
Lemma strconv_Atoi_range (s : string) (v : Z) :
  strconv_Atoi s = Some v → minInt ≤ v ≤ maxInt.
Proof.
  unfold strconv_Atoi.
  destruct (match s with
            | String "-" s' => (true, s')
            | String "+" s' => (false, s')
            | _ => (false, s)
            end) as [neg body].
  destruct body as [|c body]; [done|].
  destruct (digits_value 0 (String c body)) as [n|]; [|done].
  destruct (_ && _) eqn:Hrange; [|done].
  intros [= <-]. apply andb_true_iff in Hrange as [Hlo Hhi]. lia.
Qed.

(** ** Copying headers *)

Lemma Header_Add_lookup_ne (h : Header) (key value k : string) :
  k ≠ key → Header_Add h key value !! k = h !! k.
Proof. intros Hne. unfold Header_Add. by rewrite lookup_insert_ne. Qed.

Lemma add_values_lookup_ne (values : list string) (h : Header) (key k : string) :
  k ≠ key →
  foldl (λ h' value, Header_Add h' key value) h values !! k = h !! k.
Proof.
  intros Hne. revert h.
  induction values as [|v values IH]; intros h; simpl; [done|].
  by rewrite IH, Header_Add_lookup_ne.
Qed.

(** A skipped key keeps the values the destination already had. *)
Lemma copyHeaders_skipped (skip : string → bool)
    (src : list (string * list string)) (dst : Header) (k : string) :
  skip k = true → copyHeaders skip src dst !! k = dst !! k.
Proof.
  intros Hk. unfold copyHeaders. revert dst.
  induction src as [|[key values] src IH]; intros dst; simpl; [done|].
  rewrite IH. destruct (skip key) eqn:Hkey; [done|].
  apply add_values_lookup_ne. congruence.
Qed.

Lemma add_values_lookup (values : list string) (h : Header) (key : string) :
  values ≠ [] →
  foldl (λ h' value, Header_Add h' key value) h values !! key
  = Some (default [] (h !! key) ++ values).
Proof.
  revert h. induction values as [|v values IH]; intros h Hne; [done|].
  simpl. destruct values as [|v' values].
  - simpl. unfold Header_Add. by rewrite lookup_insert_eq.
  - rewrite IH by done. unfold Header_Add. rewrite lookup_insert_eq. simpl.
    by rewrite <- app_assoc.
Qed.

(** A key that is not skipped receives the values of its entry, after
    those the destination had; the order of the other entries does not
    matter. *)
Lemma copyHeaders_copied (skip : string → bool)
    (src : list (string * list string)) (dst : Header) (k : string)
    (values : list string) :
  NoDup src.*1 → (k, values) ∈ src → skip k = false → values ≠ [] →
  copyHeaders skip src dst !! k = Some (default [] (dst !! k) ++ values).
Proof.
  unfold copyHeaders. revert dst.
  induction src as [|[key vs] src IH]; intros dst Hnd Hin Hk Hne.
  - by apply elem_of_nil in Hin.
  - apply NoDup_cons in Hnd as [Hfresh Hnd]. simpl.
    apply elem_of_cons in Hin as [Heq|Hin].
    + injection Heq as <- <-. rewrite Hk.
      assert (Hrest : ∀ d, foldl (λ h kv, if skip kv.1 then h
                 else foldl (λ h' value, Header_Add h' kv.1 value) h kv.2) d src !! k
                 = d !! k).
      { clear IH Hnd. intros d. revert d.
        induction src as [|[key' vs'] src IH]; intros d; simpl; [done|].
        rewrite IH.
        - destruct (skip key'); [done|].
          apply add_values_lookup_ne. intros ->. apply Hfresh. simpl. left.
        - intros Hk'. apply Hfresh. simpl. by right. }
      rewrite Hrest. by apply add_values_lookup.
    + rewrite IH by done.
      assert (k ≠ key) as Hkk.
      { intros ->. apply Hfresh. apply list_elem_of_fmap. by exists (key, values). }
      destruct (skip key); [done|].
      by rewrite add_values_lookup_ne.
Qed.

(** A key without an entry keeps what the destination had. *)
Lemma copyHeaders_absent (skip : string → bool)
    (src : list (string * list string)) (dst : Header) (k : string) :
  k ∉ src.*1 → copyHeaders skip src dst !! k = dst !! k.
Proof.
  unfold copyHeaders. revert dst.
  induction src as [|[key values] src IH]; intros dst Hk; simpl; [done|].
  simpl in Hk. apply not_elem_of_cons in Hk as [Hne Hk].
  rewrite IH by done. destruct (skip key); [done|].
  by apply add_values_lookup_ne.
Qed.

(** ** The reverse proxy *)

Section Proxy_facts.

Variable url_Parse : string → option URL.

(** The path requested from the pod, case by case. *)
Lemma proxyHTTP_path_entry (path : string) :
  path = "/forward" ∨ path = "/api/v1/extensions/pod-forward/forward" →
  proxyHTTP_path path = "/".
Proof. by intros [-> | ->]. Qed.

Lemma proxyHTTP_path_prefixed (rest : string) :
  rest ≠ "forward" →
  proxyHTTP_path ("/api/v1/extensions/pod-forward" +:+ "/" +:+ rest) = "/" +:+ rest.
Proof.
  intros Hrest. unfold proxyHTTP_path.
  replace (String.eqb ("/api/v1/extensions/pod-forward" +:+ "/" +:+ rest) "/forward")
    with false by done.
  change ("/api/v1/extensions/pod-forward" +:+ "/" +:+ rest)
    with ("/api/v1/extensions/pod-forward/" +:+ rest) at 1.
  change "/api/v1/extensions/pod-forward/forward"
    with ("/api/v1/extensions/pod-forward/" +:+ "forward").
  rewrite eqb_app_same.
  apply String.eqb_neq in Hrest. rewrite Hrest. simpl orb. cbv iota.
  change ("/api/v1/extensions/pod-forward" +:+ "/" +:+ rest)
    with ("/api/v1/extensions/pod-forward/" +:+ rest) at 1.
  rewrite strings_HasPrefix_app, strings_TrimPrefix_app.
  done.
Qed.

Lemma proxyHTTP_path_other (path : string) :
  path ≠ "/forward" →
  strings_HasPrefix path "/api/v1/extensions/pod-forward/" = false →
  proxyHTTP_path path = path.
Proof.
  intros Hne Hpre. unfold proxyHTTP_path.
  apply String.eqb_neq in Hne. rewrite Hne, Hpre.
  destruct (String.eqb path "/api/v1/extensions/pod-forward/forward") eqn:He; [|done].
  apply String.eqb_eq in He. by subst path.
Qed.

(** When the pod answers, the proxied response has the pod's status and
    body, and the header [proxyHTTP_responseHeader] builds. *)
Lemma proxyHTTP_responded (w : World) (r : Request) (localPort : Z) (resp : Response) :
  http_NewRequest w (Method r) (proxyHTTP_targetURL r localPort) = None →
  client_Do w (Method r) (proxyHTTP_targetURL r localPort)
    (proxyHTTP_requestHeader (ReqHeader r)) (ReqBody r) = Ok resp →
  proxyHTTP url_Parse w r localPort
  = {| StatusCode := StatusCode resp;
       RespHeader := proxyHTTP_responseHeader url_Parse (RespHeader resp);
       Body := Body resp |}.
Proof. intros Hreq Hdo. unfold proxyHTTP. by rewrite Hreq, Hdo. Qed.

(** The [Location] of the proxied response is decided by the first
    [Location] value of the pod's response alone. *)
Lemma responseHeader_Location (h : Header) (src : list (string * list string)) :
  proxyHTTP_copyResponseHeader url_Parse h src !! "Location"
  = if String.eqb (Header_Get h "Location") EmptyString then None
    else Some [proxyHTTP_location url_Parse (Header_Get h "Location")].
Proof.
  unfold proxyHTTP_copyResponseHeader.
  rewrite copyHeaders_skipped by done.
  destruct (String.eqb (Header_Get h "Location") EmptyString); [done|].
  unfold Header_Set. by rewrite lookup_insert_eq.
Qed.

(** Every other header of the pod's response, the connection headers
    apart, is copied with all its values. *)
Lemma responseHeader_copied (h : Header) (k : string) :
  skip_response_header k = false →
  (∀ values, h !! k = Some values → values ≠ []) →
  proxyHTTP_responseHeader url_Parse h !! k = h !! k.
Proof.
  intros Hskip Hne. unfold proxyHTTP_responseHeader, proxyHTTP_copyResponseHeader.
  assert (Hdst : (if String.eqb (Header_Get h "Location") EmptyString then ∅
                  else Header_Set ∅ "Location"
                         (proxyHTTP_location url_Parse (Header_Get h "Location")))
                 !! k = None).
  { destruct (String.eqb (Header_Get h "Location") EmptyString); [done|].
    unfold Header_Set. apply lookup_insert_None. split; [done|].
    by intros <-. }
  destruct (h !! k) as [values|] eqn:Hk.
  - rewrite (copyHeaders_copied _ _ _ k values); [by rewrite Hdst| | |done|by apply Hne].
    + apply NoDup_fst_map_to_list.
    + by apply elem_of_map_to_list.
  - rewrite copyHeaders_absent; [done|].
    intros [[k' values] [Heq Hin]]%list_elem_of_fmap.
    apply elem_of_map_to_list in Hin. simpl in Heq. subst k'. congruence.
Qed.

(** C1: a [Location] header of the pod's response is rewritten in the
    proxied response.  A value that starts with a slash gets the prefix
    [/api/v1/extensions/pod-forward] prepended; a value that starts with
    [http://] or [https://] and that [url.Parse] accepts is replaced by the
    prefix followed by the parsed path and, after a question mark, the
    parsed query when there is one, so scheme and host are gone.  The two
    examples of the specification follow. *)
Theorem location_header_rewritten (w : World) (r : Request) (localPort : Z)
    (resp : Response) :
  http_NewRequest w (Method r) (proxyHTTP_targetURL r localPort) = None →
  client_Do w (Method r) (proxyHTTP_targetURL r localPort)
    (proxyHTTP_requestHeader (ReqHeader r)) (ReqBody r) = Ok resp →
  let location := Header_Get (RespHeader resp) "Location" in
  let out := RespHeader (proxyHTTP url_Parse w r localPort) in
  (strings_HasPrefix location "/" = true →
     out !! "Location" = Some ["/api/v1/extensions/pod-forward" +:+ location])
  ∧ (∀ parsedURL,
       strings_HasPrefix location "http://" || strings_HasPrefix location "https://" = true →
       url_Parse location = Some parsedURL →
       out !! "Location"
       = Some [if String.eqb (URL_RawQuery parsedURL) EmptyString
               then "/api/v1/extensions/pod-forward" +:+ URL_Path parsedURL
               else ("/api/v1/extensions/pod-forward" +:+ URL_Path parsedURL)
                      +:+ "?" +:+ URL_RawQuery parsedURL])
  ∧ (location = "/login" →
     out !! "Location" = Some ["/api/v1/extensions/pod-forward/login"])
  ∧ (location = "http://localhost:9999/callback?x=1" →
     url_Parse location = Some (mkURL "/callback" "x=1") →
     out !! "Location" = Some ["/api/v1/extensions/pod-forward/callback?x=1"]).
Proof.
  intros Hreq Hdo location out. subst out.
  rewrite (proxyHTTP_responded _ _ _ _ Hreq Hdo). simpl RespHeader.
  unfold proxyHTTP_responseHeader. rewrite responseHeader_Location.
  fold location.
  assert (Hslash : strings_HasPrefix location "/" = true →
    (if String.eqb location EmptyString then None
     else Some [proxyHTTP_location url_Parse location])
    = Some ["/api/v1/extensions/pod-forward" +:+ location]).
  { intros Hpre. rewrite (HasPrefix_nonempty _ _ Hpre) by done.
    unfold proxyHTTP_location. by rewrite Hpre. }
  assert (Habs : ∀ parsedURL,
    strings_HasPrefix location "http://" || strings_HasPrefix location "https://" = true →
    url_Parse location = Some parsedURL →
    (if String.eqb location EmptyString then None
     else Some [proxyHTTP_location url_Parse location])
    = Some [if String.eqb (URL_RawQuery parsedURL) EmptyString
            then "/api/v1/extensions/pod-forward" +:+ URL_Path parsedURL
            else ("/api/v1/extensions/pod-forward" +:+ URL_Path parsedURL)
                   +:+ "?" +:+ URL_RawQuery parsedURL]).
  { intros parsedURL Hpre Hparse.
    assert (String.eqb location EmptyString = false) as ->.
    { destruct location; [done|]. done. }
    unfold proxyHTTP_location.
    rewrite (http_prefix_not_slash _ Hpre). rewrite Hpre, Hparse.
    by destruct (String.eqb (URL_RawQuery parsedURL) EmptyString). }
  split; [exact Hslash|]. split; [exact Habs|]. split.
  - intros Hloc. rewrite Hslash; by rewrite Hloc.
  - intros Hloc Hparse.
    rewrite (Habs _ ltac:(by rewrite Hloc) Hparse). reflexivity.
Qed.

Lemma append_empty_r (s : string) : s +:+ EmptyString = s.
Proof. induction s as [|c s IH]; simpl; [done|]. by rewrite IH. Qed.

(** C4: the request sent to the pod has the target
    [http://localhost:<localPort><path>], followed by a question mark and
    the raw query when the query is not empty.  The path is [/] for the
    entry paths [/forward] and [/api/v1/extensions/pod-forward/forward];
    for any other path [/api/v1/extensions/pod-forward/<rest>] it is
    [/<rest>]; any other path is kept. *)
Theorem request_target_rewritten (w : World) (r : Request) (localPort : Z) :
  let target := proxyHTTP_targetURL r localPort in
  target = ("http://localhost:" +:+ fmt_d localPort +:+ proxyHTTP_path (Path r))
           +:+ (if String.eqb (RawQuery r) EmptyString then EmptyString
                else "?" +:+ RawQuery r)
  ∧ (Path r = "/forward" ∨ Path r = "/api/v1/extensions/pod-forward/forward" →
     proxyHTTP_path (Path r) = "/")
  ∧ (∀ rest, Path r = "/api/v1/extensions/pod-forward" +:+ "/" +:+ rest →
             rest ≠ "forward" → proxyHTTP_path (Path r) = "/" +:+ rest)
  ∧ (Path r ≠ "/forward" →
     strings_HasPrefix (Path r) "/api/v1/extensions/pod-forward/" = false →
     proxyHTTP_path (Path r) = Path r)
  ∧ proxyHTTP url_Parse w r localPort
    = match http_NewRequest w (Method r) target with
      | Some err =>
          http_Error ("Error al crear petición: " +:+ err) StatusInternalServerError
      | None =>
          match client_Do w (Method r) target
                  (proxyHTTP_requestHeader (ReqHeader r)) (ReqBody r) with
          | Err err =>
              http_Error ("Error al realizar petición: " +:+ err) StatusBadGateway
          | Ok resp =>
              {| StatusCode := StatusCode resp;
                 RespHeader := proxyHTTP_responseHeader url_Parse (RespHeader resp);
                 Body := Body resp |}
          end
      end.
Proof.
  intros target. subst target. repeat split.
  - unfold proxyHTTP_targetURL.
    destruct (String.eqb (RawQuery r) EmptyString); [|done].
    by rewrite append_empty_r.
  - apply proxyHTTP_path_entry.
  - intros rest -> Hrest. by apply proxyHTTP_path_prefixed.
  - apply proxyHTTP_path_other.
Qed.

(** C10, amended: when the first [Location] value of the pod's response is
    not empty, does not start with a slash, and either starts with neither
    [http://] nor [https://] or is refused by [url.Parse], the proxied
    response carries that value unchanged.  Whatever further [Location]
    values the pod sent, a non-empty first value alone decides, and the
    proxied response carries exactly one [Location] value.  When the first
    value is empty the proxied response carries no [Location] at all. *)
Theorem location_header_passthrough (w : World) (r : Request) (localPort : Z)
    (resp : Response) :
  http_NewRequest w (Method r) (proxyHTTP_targetURL r localPort) = None →
  client_Do w (Method r) (proxyHTTP_targetURL r localPort)
    (proxyHTTP_requestHeader (ReqHeader r)) (ReqBody r) = Ok resp →
  let location := Header_Get (RespHeader resp) "Location" in
  let out := RespHeader (proxyHTTP url_Parse w r localPort) in
  (location ≠ EmptyString →
   strings_HasPrefix location "/" = false →
   strings_HasPrefix location "http://" || strings_HasPrefix location "https://" = false
   ∨ url_Parse location = None →
   out !! "Location" = Some [location])
  ∧ (∀ first others,
       RespHeader resp !! "Location" = Some (first :: others) →
       first ≠ EmptyString →
       out !! "Location" = Some [proxyHTTP_location url_Parse first])
  ∧ (location = EmptyString → out !! "Location" = None).
Proof.
  intros Hreq Hdo location out. subst out.
  rewrite (proxyHTTP_responded _ _ _ _ Hreq Hdo). simpl RespHeader.
  unfold proxyHTTP_responseHeader. rewrite responseHeader_Location.
  fold location. repeat split.
  - intros Hne Hslash Hcase.
    apply String.eqb_neq in Hne. rewrite Hne. f_equal. f_equal.
    unfold proxyHTTP_location. rewrite Hslash.
    destruct Hcase as [-> | ->]; [done|].
    by destruct (strings_HasPrefix location "http://" || strings_HasPrefix location "https://").
  - intros first others Hvalues Hne.
    assert (location = first) as ->.
    { subst location. unfold Header_Get. by rewrite Hvalues. }
    apply String.eqb_neq in Hne. by rewrite Hne.
  - by intros ->.
Qed.

End Proxy_facts.

(** ** The registry *)

Lemma lookup_hit (sessionKey : string) (st : Registry) (session : PortForwardSession) :
  activeSessions st !! sessionKey = Some session → live session →
  getOrCreateSession_lookup sessionKey st = Some session.
Proof.
  intros Hin Hlive. unfold getOrCreateSession_lookup. rewrite Hin.
  unfold live in Hlive. by destruct (PF session).
Qed.

Lemma lookup_hit_inv (sessionKey : string) (st : Registry) (session : PortForwardSession) :
  getOrCreateSession_lookup sessionKey st = Some session →
  activeSessions st !! sessionKey = Some session ∧ live session.
Proof.
  unfold getOrCreateSession_lookup, live.
  destruct (activeSessions st !! sessionKey) as [s|]; [|done].
  destruct (PF s) eqn:Hpf; [|done]. intros [= <-]. by rewrite Hpf.
Qed.

(** A session that establishment returns is live, and stamped with the
    time of the call. *)
Lemma establish_Ok (c : Cluster) (now : Z) (namespace pod : string) (port : Z)
    (session : PortForwardSession) :
  getOrCreateSession_establish c now namespace pod port = Ok session →
  live session ∧ LastUsed session = now ∧ Namespace session = namespace
  ∧ Pod session = pod ∧ Port session = port.
Proof.
  unfold getOrCreateSession_establish, mbind, result_bind, wrap_err, live.
  destruct (Pods_Get c namespace pod); [done|].
  destruct (spdy_RoundTripperFor c); [done|].
  destruct (portforward_New c namespace pod _) as [pf|]; [|done].
  destruct (select_case c) as [|[e|]|]; try done;
    destruct (pf_GetPorts c) as [[|p ps]|]; try done;
    by intros [= <-].
Qed.

(** What a call leaves under its key when it returns a session. *)
Lemma getOrCreateSession_stored (c : Cluster) (now : Z)
    (sessionKey namespace pod : string) (port : Z) (st st' : Registry)
    (session : PortForwardSession) :
  getOrCreateSession c now sessionKey namespace pod port st = (st', Ok session) →
  activeSessions st' !! sessionKey = Some session
  ∧ live session ∧ LastUsed session = now.
Proof.
  unfold getOrCreateSession.
  destruct (getOrCreateSession_lookup sessionKey st) as [old|] eqn:Hlook.
  - intros [= <- <-]. apply lookup_hit_inv in Hlook as [Hin Hlive].
    simpl. rewrite lookup_alter_eq, Hin. done.
  - destruct (getOrCreateSession_establish c now namespace pod port) as [s|] eqn:Hest;
      [|done].
    intros [= <- <-]. apply establish_Ok in Hest as (Hlive & Hnow & _).
    simpl. by rewrite lookup_insert_eq.
Qed.

Lemma stamped_touch (key : string) (now : Z) (st : Registry) :
  zeroTime < now → stamped st → stamped (touch key now st).
Proof.
  intros Hnow Hst k s. unfold touch. simpl.
  rewrite lookup_alter. case_decide as Hk.
  - subst k. destruct (activeSessions st !! key); simpl; [|done].
    by intros [= <-].
  - apply Hst.
Qed.

Lemma stamped_getOrCreateSession (c : Cluster) (now : Z)
    (sessionKey namespace pod : string) (port : Z) (st : Registry) :
  zeroTime < now → stamped st →
  stamped (getOrCreateSession c now sessionKey namespace pod port st).1.
Proof.
  intros Hnow Hst. unfold getOrCreateSession.
  destruct (getOrCreateSession_lookup sessionKey st); simpl.
  - by apply stamped_touch.
  - destruct (getOrCreateSession_establish c now namespace pod port) as [s|] eqn:Hest;
      simpl; [|done].
    apply establish_Ok in Hest as (_ & Hs & _).
    apply map_Forall_insert_2; [|done]. simpl. by rewrite Hs.
Qed.

Lemma stamped_cleanup (sessionKey : string) (localPort : Z) (st : Registry) :
  stamped st → stamped (session_cleanup sessionKey localPort st).
Proof. intros Hst. by apply map_Forall_delete. Qed.

Lemma stamped_empty : stamped emptyRegistry.
Proof. apply map_Forall_empty. Qed.

(** ** The scan for the most recently used session *)

Lemma scan_step_ok (seen : list (string * PortForwardSession))
    (acc : Z * option (string * PortForwardSession)) (kv : string * PortForwardSession) :
  scan_acc_ok seen acc → scan_acc_ok (seen ++ [kv]) (scan_step acc kv).
Proof.
  intros (H0 & Hmax & Hsel). unfold scan_step, Time_After.
  destruct (bool_decide (PF kv.2 ≠ None)) eqn:Hlive; simpl andb.
  - apply bool_decide_eq_true in Hlive.
    destruct (acc.1 <? LastUsed kv.2) eqn:Hlt.
    + apply Z.ltb_lt in Hlt. split; [simpl; lia|]. split.
      * intros kv' [Hin | ->%list_elem_of_singleton]%elem_of_app Hl; simpl; [|lia].
        specialize (Hmax kv' Hin Hl). lia.
      * simpl. split; [|done]. apply elem_of_app. right. by apply list_elem_of_singleton.
    + apply Z.ltb_ge in Hlt. split; [done|]. split.
      * intros kv' [Hin | ->%list_elem_of_singleton]%elem_of_app Hl; [by apply Hmax|done].
      * destruct (acc.2) as [sel|]; [|done].
        destruct Hsel as (Hin & Hl & He). split; [|done].
        apply elem_of_app. by left.
  - apply bool_decide_eq_false in Hlive. split; [done|]. split.
    + intros kv' [Hin | ->%list_elem_of_singleton]%elem_of_app Hl; [by apply Hmax|done].
    + destruct (acc.2) as [sel|]; [|done].
      destruct Hsel as (Hin & Hl & He). split; [|done].
      apply elem_of_app. by left.
Qed.

Lemma scan_fold_ok (l seen : list (string * PortForwardSession))
    (acc : Z * option (string * PortForwardSession)) :
  scan_acc_ok seen acc → scan_acc_ok (seen ++ l) (foldl scan_step acc l).
Proof.
  revert seen acc. induction l as [|kv l IH]; intros seen acc Hacc; simpl.
  - by rewrite app_nil_r.
  - replace (seen ++ kv :: l) with ((seen ++ [kv]) ++ l)
      by (by rewrite <- app_assoc).
    apply IH. by apply scan_step_ok.
Qed.

Lemma scan_sessions_ok (l : list (string * PortForwardSession)) :
  scan_acc_ok l (foldl scan_step (zeroTime, None) l).
Proof.
  apply (scan_fold_ok l [] (zeroTime, None)).
  split; [done|]. split; [|done]. intros kv Hin. by apply elem_of_nil in Hin.
Qed.

(** The session the scan selects is live and no live session was used
    later. *)
Lemma scan_sessions_Some (l : list (string * PortForwardSession))
    (kv : string * PortForwardSession) :
  scan_sessions l = Some kv →
  kv ∈ l ∧ live kv.2
  ∧ ∀ kv', kv' ∈ l → live kv'.2 → LastUsed kv'.2 ≤ LastUsed kv.2.
Proof.
  unfold scan_sessions. intros Hsel.
  destruct (scan_sessions_ok l) as (_ & Hmax & Hacc). rewrite Hsel in Hacc.
  destruct Hacc as (Hin & Hl & He). split; [done|]. split; [done|].
  intros kv' Hin' Hl'. rewrite He. by apply Hmax.
Qed.

(** The scan selects nothing only if no live session is stamped. *)
Lemma scan_sessions_None (l : list (string * PortForwardSession))
    (kv : string * PortForwardSession) :
  scan_sessions l = None → kv ∈ l → live kv.2 → LastUsed kv.2 ≤ zeroTime.
Proof.
  unfold scan_sessions. intros Hsel Hin Hl.
  destruct (scan_sessions_ok l) as (_ & Hmax & Hacc). rewrite Hsel in Hacc.
  rewrite <- Hacc. by apply Hmax.
Qed.

(** The entries [range] yields are those of the map. *)
Lemma range_sessions_elem (w : World) (st : Registry) (key : string)
    (s : PortForwardSession) :
  range_ok w →
  (key, s) ∈ range_sessions w (map_to_list (activeSessions st))
  ↔ activeSessions st !! key = Some s.
Proof. intros Hw. rewrite (Hw _). apply elem_of_map_to_list. Qed.

(** ** Establishing a tunnel *)

(** The select always fires, with one of its three arms. *)
Lemma select_fires_total (ready_at : option Z) (err_at : option (Z * option string)) :
  ∃ arm waited, select_fires ready_at err_at arm waited.
Proof.
  destruct ready_at as [tr|], err_at as [[te err]|].
  - destruct (decide (tr ≤ te)) as [Hle|Hgt].
    + destruct (decide (tr ≤ fiveSeconds)).
      * exists CaseReady, tr. constructor; [done|done|]. by intros ?? [= <- <-].
      * exists CaseTimeout, fiveSeconds. constructor.
        -- intros ? [= <-]. lia.
        -- intros ?? [= <- <-]. lia.
    + destruct (decide (te ≤ fiveSeconds)).
      * exists (CaseErr err), te. constructor; [done|done|]. intros ? [= <-]. lia.
      * exists CaseTimeout, fiveSeconds. constructor.
        -- intros ? [= <-]. lia.
        -- intros ?? [= <- <-]. lia.
  - destruct (decide (tr ≤ fiveSeconds)).
    + exists CaseReady, tr. by constructor.
    + exists CaseTimeout, fiveSeconds. constructor; [|done]. intros ? [= <-]. lia.
  - destruct (decide (te ≤ fiveSeconds)).
    + exists (CaseErr err), te. by constructor.
    + exists CaseTimeout, fiveSeconds. constructor; [done|]. intros ?? [= <- <-]. lia.
  - exists CaseTimeout, fiveSeconds. by constructor.
Qed.

(** After the wait: an arm that lets the call go on is followed by
    [GetPorts], whose failure is an error of its own (line 252). *)
Lemma establish_after_wait (c : Cluster) (now : Z) (namespace pod : string)
    (port : Z) (pf : PortForwarder) :
  Pods_Get c namespace pod = None →
  spdy_RoundTripperFor c = None →
  portforward_New c namespace pod ["0:" +:+ fmt_d port] = Ok pf →
  select_case c = CaseReady ∨ select_case c = CaseErr None →
  getOrCreateSession_establish c now namespace pod port
  = match pf_GetPorts c with
    | Ok (p :: _) =>
        Ok {| Namespace := namespace; Pod := pod; Port := port;
              LocalPort := Local p; PF := Some pf; LastUsed := now |}
    | _ => Err "error al obtener puerto local"
    end.
Proof.
  intros Hpod Hrt Hnew Harm.
  unfold getOrCreateSession_establish, mbind, result_bind.
  rewrite Hpod, Hrt, Hnew. simpl wrap_err. cbv iota beta.
  by destruct Harm as [-> | ->].
Qed.

(** C8: once the pod is found and the forwarder is created, the wait for
    the forwarding loop lasts at most five seconds and ends in one of
    three ways.  On the ready signal the first forwarded port that
    [GetPorts] reports becomes the local port of the new session.  On an
    error delivered by the forwarding loop, establishment fails with
    [error al iniciar port-forward].  When neither signal has come
    before five seconds have passed, it fails with
    [timeout al iniciar port-forward]. *)
Theorem establish_wait_outcomes (c : Cluster) (now : Z) (namespace pod : string)
    (port : Z) (pf : PortForwarder)
    (ready_at : option Z) (err_at : option (Z * option string)) (waited : Z) :
  Pods_Get c namespace pod = None →
  spdy_RoundTripperFor c = None →
  portforward_New c namespace pod ["0:" +:+ fmt_d port] = Ok pf →
  select_fires ready_at err_at (select_case c) waited →
  let outcome := getOrCreateSession_establish c now namespace pod port in
  waited ≤ 5 * Second
  ∧ ((select_case c = CaseReady ∧ ready_at = Some waited
      ∧ ∀ p ports, pf_GetPorts c = Ok (p :: ports) →
          outcome = Ok {| Namespace := namespace; Pod := pod; Port := port;
                          LocalPort := Local p; PF := Some pf; LastUsed := now |})
     ∨ (∃ err, select_case c = CaseErr err ∧ err_at = Some (waited, err)
          ∧ ∀ e, err = Some e →
              outcome = Err ("error al iniciar port-forward: " +:+ e))
     ∨ (select_case c = CaseTimeout ∧ waited = 5 * Second
        ∧ (∀ t, ready_at = Some t → 5 * Second ≤ t)
        ∧ (∀ t err, err_at = Some (t, err) → 5 * Second ≤ t)
        ∧ outcome = Err "timeout al iniciar port-forward")).
Proof.
  intros Hpod Hrt Hnew Hfires outcome. subst outcome.
  unfold getOrCreateSession_establish, mbind, result_bind.
  rewrite Hpod, Hrt, Hnew. simpl wrap_err. cbv iota beta.
  change (5 * Second) with fiveSeconds.
  inversion Hfires as [t Hr Hle Hfirst Harm | t err He Hle Hfirst Harm | Hr He Harm];
    subst; (split; [done|]).
  - left. split; [done|]. split; [done|]. by intros p ports ->.
  - right. left. exists err. split; [done|]. split; [done|]. by intros e ->.
  - right. right. done.
Qed.

(** ** Reusing a session *)

(** C3, amended: when the registry holds a live session under the key,
    [getOrCreateSession] returns that session with its last-used time set
    to the current time (line 194); its other fields, the other sessions
    and the port index are unchanged, and nothing is asked of the
    cluster. *)
Theorem getOrCreateSession_reuses (c : Cluster) (now : Z)
    (sessionKey namespace pod : string) (port : Z) (st : Registry)
    (session : PortForwardSession) :
  activeSessions st !! sessionKey = Some session → PF session ≠ None →
  let '(st', returned) := getOrCreateSession c now sessionKey namespace pod port st in
  returned = Ok (set_LastUsed now session)
  ∧ LastUsed (set_LastUsed now session) = now
  ∧ (Namespace (set_LastUsed now session), Pod (set_LastUsed now session),
     Port (set_LastUsed now session), LocalPort (set_LastUsed now session),
     PF (set_LastUsed now session))
    = (Namespace session, Pod session, Port session, LocalPort session, PF session)
  ∧ activeSessions st' !! sessionKey = Some (set_LastUsed now session)
  ∧ (∀ key, key ≠ sessionKey → activeSessions st' !! key = activeSessions st !! key)
  ∧ localPortToSession st' = localPortToSession st.
Proof.
  intros Hin Hlive. unfold getOrCreateSession.
  rewrite (lookup_hit _ _ _ Hin Hlive). repeat split.
  - simpl. by rewrite lookup_alter_eq, Hin.
  - intros key Hne. simpl. by rewrite lookup_alter_ne.
Qed.

(** X23: two calls in a row, for the same key: the second returns the
    session the first one returned, so the same tunnel and the same local
    port, and asks nothing of the cluster. *)
Lemma serial_calls_share_tunnel (c0 c1 : Cluster) (now0 now1 : Z)
    (sessionKey namespace pod : string) (port : Z) (st st1 : Registry)
    (s0 : PortForwardSession) :
  getOrCreateSession c0 now0 sessionKey namespace pod port st = (st1, Ok s0) →
  getOrCreateSession c1 now1 sessionKey namespace pod port st1
  = (touch sessionKey now1 st1, Ok (set_LastUsed now1 s0)).
Proof.
  intros Hfirst. apply getOrCreateSession_stored in Hfirst as (Hin & Hlive & _).
  unfold getOrCreateSession. by rewrite (lookup_hit _ _ _ Hin Hlive).
Qed.

(** A call that runs alone, region after region, is [getOrCreateSession]. *)
Lemma call_steps_alone (c : Call) (sys : System) :
  let '(st', returned) :=
    getOrCreateSession (call_cluster c) (call_now c) (call_key c)
      (call_namespace c) (call_pod c) (call_port c) (registry sys) in
  ∃ tunnels,
    call_steps 4 c AtLookup sys
    = (Returned returned, {| registry := st'; established := tunnels |}).
Proof.
  unfold getOrCreateSession. simpl.
  destruct (getOrCreateSession_lookup (call_key c) (registry sys)); simpl.
  - by eexists.
  - destruct (getOrCreateSession_establish _ _ _ _ _); simpl.
    + by eexists.
    + exists (established sys). by destruct sys.
Qed.

(** Two calls that both look the key up before either inserts: whenever
    neither finds a live session and both establishments succeed, each
    call returns the session of its own tunnel. *)
Lemma race_establishes_twice (c0 c1 : Call) (sys : System)
    (s0 s1 : PortForwardSession) :
  getOrCreateSession_lookup (call_key c0) (registry sys) = None →
  getOrCreateSession_lookup (call_key c1) (registry sys) = None →
  getOrCreateSession_establish (call_cluster c0) (call_now c0)
    (call_namespace c0) (call_pod c0) (call_port c0) = Ok s0 →
  getOrCreateSession_establish (call_cluster c1) (call_now c1)
    (call_namespace c1) (call_pod c1) (call_port c1) = Ok s1 →
  let final :=
    run_schedule c0 c1 [false; true; false; true; false; false; true; true] sys in
  pc0 final = Returned (Ok s0) ∧ pc1 final = Returned (Ok s1)
  ∧ established (shared final) = s1 :: s0 :: established sys.
Proof.
  intros Hmiss0 Hmiss1 Hest0 Hest1. unfold run_schedule. simpl.
  rewrite Hmiss0. simpl. rewrite Hmiss1. simpl.
  rewrite Hest0. simpl. rewrite Hest1. simpl. done.
Qed.

(** ** Resolving a request *)

Section Handler_facts.

Variable url_Parse : string → option URL.
Variable URL_Query : string → Values.

Lemma handlePortForward_fallback (w : World) (r : Request) (st : Registry) :
  parameter_missing URL_Query r = true →
  handlePortForward url_Parse URL_Query w r st
  = match fallback_choice w st with
    | Some (key, activeSession) =>
        (touch key (time_Now w 0) st, proxyHTTP url_Parse w r (LocalPort activeSession))
    | None =>
        if is_forward_entry r then (st, serveForwardPage URL_Query r)
        else (st, http_Error
                    "Faltan parámetros requeridos: namespace, pod, port. No hay sesión activa."
                    StatusBadRequest)
    end.
Proof.
  unfold parameter_missing, handlePortForward, fallback_choice. cbv zeta.
  by intros ->.
Qed.

Lemma fallback_choice_None (w : World) (st : Registry) :
  range_ok w →
  (∀ key s, activeSessions st !! key = Some s → PF s = None) →
  fallback_choice w st = None.
Proof.
  intros Hw Hdead. unfold fallback_choice.
  destruct (scan_sessions _) as [[key s]|] eqn:Hsel; [|done].
  apply scan_sessions_Some in Hsel as (Hin & Hlive & _).
  apply (range_sessions_elem w st key s Hw) in Hin.
  by specialize (Hdead key s Hin).
Qed.

(** The handlers keep every session stamped, as long as the clock reads
    a time after the zero time. *)
Lemma handlePortForward_stamped (w : World) (r : Request) (st : Registry) :
  (∀ n, zeroTime < time_Now w n) → stamped st →
  stamped (handlePortForward url_Parse URL_Query w r st).1.
Proof.
  intros Hclock Hst. unfold handlePortForward. cbv zeta.
  destruct (_ || _).
  - destruct (scan_sessions _) as [[key s]|]; simpl.
    + by apply stamped_touch.
    + by destruct (is_forward_entry r).
  - destruct (strconv_Atoi _) as [port|]; [|done].
    pose proof (stamped_getOrCreateSession (cluster w) (time_Now w 0)
      (sessionKey_of (Values_Get (URL_Query (RawQuery r)) "namespace")
         (Values_Get (URL_Query (RawQuery r)) "pod") port)
      (Values_Get (URL_Query (RawQuery r)) "namespace")
      (Values_Get (URL_Query (RawQuery r)) "pod") port st (Hclock 0%nat) Hst) as Hget.
    destruct (getOrCreateSession _ _ _ _ _ _ _) as [st' [session|err]]; simpl in *.
    + by apply stamped_touch.
    + done.
Qed.

Lemma main_root_stamped (w : World) (r : Request) (st : Registry) :
  (∀ n, zeroTime < time_Now w n) → stamped st →
  stamped (main_root url_Parse URL_Query w r st).1.
Proof.
  intros Hclock Hst. unfold main_root.
  destruct (String.eqb (Path r) "/"); [done|].
  destruct (is_forward_like (Path r)); [|done].
  by apply handlePortForward_stamped.
Qed.

Lemma reachable_stamped (st : Registry) :
  reachable url_Parse URL_Query st → stamped st.
Proof.
  induction 1 as [|w r st _ IH Hclock|w r st _ IH Hclock|key port st _ IH].
  - apply stamped_empty.
  - by apply handlePortForward_stamped.
  - by apply main_root_stamped.
  - by apply stamped_cleanup.
Qed.

(** C5: when a parameter is missing, the handler scans the registered
    sessions of the registry it has reached.  Whatever order the scan
    takes, the session it selects is
    registered and live, no live session was used later, and the request
    is proxied to its local port; a session is selected exactly when a
    live one exists.  With two live sessions used at different times the
    later used one is selected; on an empty registry none is selected and
    the handler answers with the page or the error. *)
Theorem fallback_selects_most_recent (w : World) (r : Request) (st : Registry) :
  range_ok w → reachable url_Parse URL_Query st →
  parameter_missing URL_Query r = true →
  (∀ key s, fallback_choice w st = Some (key, s) →
     activeSessions st !! key = Some s ∧ PF s ≠ None
     ∧ (∀ key' s', activeSessions st !! key' = Some s' → PF s' ≠ None →
                   LastUsed s' ≤ LastUsed s)
     ∧ handlePortForward url_Parse URL_Query w r st
       = (touch key (time_Now w 0) st, proxyHTTP url_Parse w r (LocalPort s)))
  ∧ (fallback_choice w st = None
     ↔ ∀ key s, activeSessions st !! key = Some s → PF s = None)
  ∧ (∀ k1 k2 s1 s2,
       activeSessions st = {[ k1 := s1; k2 := s2 ]} → k1 ≠ k2 →
       PF s1 ≠ None → PF s2 ≠ None → LastUsed s1 < LastUsed s2 →
       fallback_choice w st = Some (k2, s2))
  ∧ (activeSessions st = ∅ →
     fallback_choice w st = None
     ∧ handlePortForward url_Parse URL_Query w r st
       = if is_forward_entry r then (st, serveForwardPage URL_Query r)
         else (st, http_Error
                     "Faltan parámetros requeridos: namespace, pod, port. No hay sesión activa."
                     StatusBadRequest)).
Proof.
  intros Hw Hst%reachable_stamped Hmiss.
  assert (Hsome : ∀ key s, fallback_choice w st = Some (key, s) →
     activeSessions st !! key = Some s ∧ PF s ≠ None
     ∧ (∀ key' s', activeSessions st !! key' = Some s' → PF s' ≠ None →
                   LastUsed s' ≤ LastUsed s)).
  { intros key s Hsel. unfold fallback_choice in Hsel.
    apply scan_sessions_Some in Hsel as (Hin & Hlive & Hmax).
    split; [by apply (range_sessions_elem w st key s Hw)|]. split; [done|].
    intros key' s' Hin' Hlive'.
    apply (Hmax (key', s')); [|done].
    by apply (range_sessions_elem w st key' s' Hw). }
  assert (Hnone : fallback_choice w st = None
     ↔ ∀ key s, activeSessions st !! key = Some s → PF s = None).
  { split; [|by apply fallback_choice_None].
    intros Hsel key s Hin.
    destruct (PF s) as [pf|] eqn:Hpf; [|done]. exfalso.
    assert (live s) as Hlive by (unfold live; by rewrite Hpf).
    pose proof (scan_sessions_None _ (key, s) Hsel
      (proj2 (range_sessions_elem w st key s Hw) Hin) Hlive) as Hle.
    specialize (Hst key s Hin). simpl in *. lia. }
  split; [|split; [done|split]].
  - intros key s Hsel. destruct (Hsome key s Hsel) as (Hin & Hlive & Hmax).
    repeat split; try done.
    rewrite handlePortForward_fallback by done. by rewrite Hsel.
  - intros k1 k2 s1 s2 Hmap Hne Hl1 Hl2 Hlt.
    assert (activeSessions st !! k1 = Some s1) as H1
      by (rewrite Hmap; apply lookup_insert_eq).
    assert (activeSessions st !! k2 = Some s2) as H2.
    { rewrite Hmap, lookup_insert_ne by done. apply lookup_singleton_eq. }
    destruct (fallback_choice w st) as [[key s]|] eqn:Hsel.
    + destruct (Hsome key s eq_refl) as (Hin & _ & Hmax).
      rewrite Hmap in Hin.
      apply lookup_insert_Some in Hin as [[<- <-] | [_ Hin]].
      * specialize (Hmax k2 s2 H2 Hl2). lia.
      * apply lookup_singleton_Some in Hin as [<- <-]. done.
    + exfalso. apply Hl1. by apply (proj1 Hnone eq_refl k1).
  - intros Hempty.
    assert (fallback_choice w st = None) as Hsel.
    { apply Hnone. intros key s. by rewrite Hempty, lookup_empty. }
    split; [done|].
    rewrite handlePortForward_fallback by done. by rewrite Hsel.
Qed.

(** C6, amended: when a parameter is missing and no registered session is
    live, a GET whose path is [/forward] or starts with
    [/api/v1/extensions/pod-forward/forward] is answered 200 with the HTML
    page that echoes the namespace, pod and port parameters; every other
    request is answered 400 with a message.  The registry is unchanged. *)
Theorem missing_parameters_without_session (w : World) (r : Request) (st : Registry) :
  range_ok w → parameter_missing URL_Query r = true →
  (∀ key s, activeSessions st !! key = Some s → PF s = None) →
  let q := URL_Query (RawQuery r) in
  let entry :=
    (String.eqb (Path r) "/forward"
     || strings_HasPrefix (Path r) "/api/v1/extensions/pod-forward/forward")
    && String.eqb (Method r) "GET" in
  handlePortForward url_Parse URL_Query w r st
  = (st, if entry
         then {| StatusCode := 200;
                 RespHeader := {[ "Content-Type" := ["text/html; charset=utf-8"] ]};
                 Body := serveForwardPage_body (Values_Get q "namespace")
                           (Values_Get q "pod") (Values_Get q "port") |}
         else http_Error
                "Faltan parámetros requeridos: namespace, pod, port. No hay sesión activa."
                400)
  ∧ StatusCode
      (http_Error
         "Faltan parámetros requeridos: namespace, pod, port. No hay sesión activa."
         400) = 400.
Proof.
  intros Hw Hmiss Hdead q entry. split; [|done].
  rewrite handlePortForward_fallback by done.
  rewrite (fallback_choice_None w st Hw Hdead).
  unfold is_forward_entry, MethodGet. fold entry.
  destruct entry; [|done].
  unfold serveForwardPage, Header_Set, StatusOK. fold q.
  by rewrite insert_empty.
Qed.

(** C7, amended: when the three parameters are present, the request goes
    on to [getOrCreateSession] with the identity made of the namespace,
    the pod and the port whenever [strconv.Atoi] accepts the port
    parameter, which it also does for zero and for negative numbers; when
    [strconv.Atoi] refuses it the answer is 400 with the message
    [Puerto inválido] and the registry is unchanged. *)
Theorem port_parameter_parsed (w : World) (r : Request) (st : Registry) :
  parameter_missing URL_Query r = false →
  let q := URL_Query (RawQuery r) in
  let namespace := Values_Get q "namespace" in
  let pod := Values_Get q "pod" in
  let portStr := Values_Get q "port" in
  (strconv_Atoi portStr = None →
   handlePortForward url_Parse URL_Query w r st
   = (st, http_Error ("Puerto inválido: " +:+ portStr) 400))
  ∧ (∀ port, strconv_Atoi portStr = Some port →
     handlePortForward url_Parse URL_Query w r st
     = match getOrCreateSession (cluster w) (time_Now w 0)
               (namespace +:+ "/" +:+ pod +:+ ":" +:+ fmt_d port) namespace pod port st with
       | (st', Err err) =>
           (st', http_Error ("Error al crear port-forward: " +:+ err) 500)
       | (st', Ok session) =>
           (touch (namespace +:+ "/" +:+ pod +:+ ":" +:+ fmt_d port) (time_Now w 1) st',
            proxyHTTP url_Parse w r (LocalPort session))
       end)
  ∧ strconv_Atoi "0" = Some 0
  ∧ strconv_Atoi "-5" = Some (-5)
  ∧ strconv_Atoi "8080" = Some 8080
  ∧ strconv_Atoi "http" = None
  ∧ strconv_Atoi "80a" = None.
Proof.
  intros Hpresent q namespace pod portStr.
  unfold parameter_missing in Hpresent. fold q namespace pod portStr in Hpresent.
  split; [|split; [|done]].
  - intros Hparse. unfold handlePortForward. fold q namespace pod portStr.
    cbv zeta. fold q namespace pod portStr. by rewrite Hpresent, Hparse.
  - intros port Hparse. unfold handlePortForward. fold q namespace pod portStr.
    cbv zeta. fold q namespace pod portStr. by rewrite Hpresent, Hparse.
Qed.

(** C9, amended: the handler of [/] answers the path [/] itself with 200
    and a banner.  Any other path that reaches it is handed to
    [handlePortForward] when it contains [/forward] or starts with
    [/api/v1/extensions/pod-forward/], and is answered 404 otherwise,
    whatever the method. *)
Theorem root_handler_routes (w : World) (r : Request) (st : Registry) :
  (Path r = "/" →
   main_root url_Parse URL_Query w r st
   = (st, {| StatusCode := 200; RespHeader := ∅;
             Body := "Pod Forward Backend - Path: /" +:+ newline |}))
  ∧ (Path r ≠ "/" →
     strings_Contains (Path r) "/forward"
     || strings_HasPrefix (Path r) "/api/v1/extensions/pod-forward/" = true →
     main_root url_Parse URL_Query w r st = handlePortForward url_Parse URL_Query w r st)
  ∧ (Path r ≠ "/" →
     strings_Contains (Path r) "/forward"
     || strings_HasPrefix (Path r) "/api/v1/extensions/pod-forward/" = false →
     main_root url_Parse URL_Query w r st = (st, http_Error "404 page not found" 404)).
Proof.
  unfold main_root, is_forward_like. repeat split.
  - by intros ->.
  - intros Hne%String.eqb_neq ->. by rewrite Hne.
  - intros Hne%String.eqb_neq ->. by rewrite Hne.
Qed.

End Handler_facts.

(** *** The reverse proxy on concrete responses *)

Lemma location_header_rewritten_witness :
  RespHeader (proxyHTTP split_url
                (redirect_world ["http://localhost:9999/callback?x=1"])
                (get_request "/api/v1/extensions/pod-forward/start" EmptyString) 40001)
    !! "Location"
  = Some ["/api/v1/extensions/pod-forward/callback?x=1"].
Proof.
  exact (proj2 (proj2 (proj2
    (location_header_rewritten split_url
       (redirect_world ["http://localhost:9999/callback?x=1"])
       (get_request "/api/v1/extensions/pod-forward/start" EmptyString) 40001
       (redirect_response ["http://localhost:9999/callback?x=1"])
       eq_refl eq_refl))) eq_refl eq_refl).
Defined.

Lemma request_target_rewritten_witness :
  proxyHTTP_targetURL (get_request "/api/v1/extensions/pod-forward/d/home" "orgId=1") 40001
  = "http://localhost:40001/d/home?orgId=1".
Proof.
  pose proof (request_target_rewritten split_url (redirect_world [])
    (get_request "/api/v1/extensions/pod-forward/d/home" "orgId=1") 40001) as H.
  cbv zeta in H. destruct H as (Htarget & _ & Hrest & _).
  rewrite Htarget. rewrite (Hrest "d/home" eq_refl); [reflexivity|discriminate].
Defined.

Lemma location_header_passthrough_witness :
  RespHeader (proxyHTTP split_url (redirect_world ["login"; "/other"])
                (get_request "/forward" EmptyString) 40001)
    !! "Location"
  = Some ["login"].
Proof.
  exact (proj1
    (location_header_passthrough split_url (redirect_world ["login"; "/other"])
       (get_request "/forward" EmptyString) 40001
       (redirect_response ["login"; "/other"]) eq_refl eq_refl)
    ltac:(discriminate) eq_refl (or_introl eq_refl)).
Defined.

(** The pod sends two [Location] values, the first of them empty: the
    proxied response carries no [Location], where C10 promises exactly
    one. *)
Lemma location_header_dropped :
  let resp := redirect_response [EmptyString; "/next"] in
  RespHeader resp !! "Location" = Some [EmptyString; "/next"]
  ∧ RespHeader (proxyHTTP split_url (redirect_world [EmptyString; "/next"])
                  (get_request "/forward" EmptyString) 40001)
      !! "Location" = None.
Proof. split; reflexivity. Qed.

(** *** The registry on concrete sessions *)

Lemma reversing_world_range_ok : range_ok reversing_world.
Proof. intros l. apply reverse_Permutation. Defined.

Lemma two_sessions_reachable : reachable split_url split_query two_sessions.
Proof.
  apply reach_forward; [apply reach_forward; [apply reach_start|]|];
    intros n; unfold zeroTime; simpl; lia.
Defined.

(** The session was last used at 100; the call at time 200 returns it
    stamped 200, where C3 promises the old stamp. *)
Lemma reused_session_is_restamped :
  activeSessions one_session !! "ns1/p1:80" = Some session_a
  ∧ LastUsed session_a = 100
  ∧ (getOrCreateSession (ready_cluster 2%nat 40002 80) 200
       "ns1/p1:80" "ns1" "p1" 80 one_session).2
    = Ok {| Namespace := "ns1"; Pod := "p1"; Port := 80; LocalPort := 40001;
            PF := Some 1%nat; LastUsed := 200 |}.
Proof. repeat split. Qed.

Lemma getOrCreateSession_reuses_witness :
  (getOrCreateSession (ready_cluster 2%nat 40002 80) 200
     "ns1/p1:80" "ns1" "p1" 80 one_session).2
  = Ok (set_LastUsed 200 session_a).
Proof.
  exact (proj1 (getOrCreateSession_reuses (ready_cluster 2%nat 40002 80) 200
    "ns1/p1:80" "ns1" "p1" 80 one_session session_a eq_refl ltac:(discriminate))).
Defined.

Lemma fallback_selects_most_recent_witness :
  fallback_choice reversing_world two_sessions = Some ("ns2/p2:3000", session_b).
Proof.
  refine (proj1 (proj2 (proj2
    (fallback_selects_most_recent split_url split_query reversing_world
       (get_request "/api/v1/extensions/pod-forward/d/home" EmptyString) two_sessions
       reversing_world_range_ok two_sessions_reachable eq_refl)))
    "ns1/p1:80" "ns2/p2:3000" session_a session_b eq_refl _ _ _ _);
    [discriminate | discriminate | discriminate | reflexivity].
Defined.

(** *** The handlers on concrete requests *)

Lemma idle_world_range_ok : range_ok idle_world.
Proof. intros l. reflexivity. Defined.

(** A GET without parameters, on an empty registry, to a path that only
    starts with the entry path: the answer is the page, with status 200,
    where C6 promises 400. *)
Lemma forward_page_beyond_entry :
  let r := get_request "/api/v1/extensions/pod-forward/forwarding" EmptyString in
  String.eqb (Path r) "/forward" = false
  ∧ String.eqb (Path r) "/api/v1/extensions/pod-forward/forward" = false
  ∧ StatusCode (handlePortForward split_url split_query idle_world r emptyRegistry).2
    = 200.
Proof. repeat split. Qed.

Lemma missing_parameters_without_session_witness :
  handlePortForward split_url split_query idle_world
    {| Method := "POST"; Path := "/forward"; RawQuery := "namespace=ns1";
       ReqHeader := ∅; ReqBody := EmptyString |} emptyRegistry
  = (emptyRegistry,
     http_Error
       "Faltan parámetros requeridos: namespace, pod, port. No hay sesión activa."
       400).
Proof.
  refine (proj1 (missing_parameters_without_session split_url split_query idle_world
    {| Method := "POST"; Path := "/forward"; RawQuery := "namespace=ns1";
       ReqHeader := ∅; ReqBody := EmptyString |} emptyRegistry
    idle_world_range_ok eq_refl _)).
  intros key s Hin. simpl in Hin. by rewrite lookup_empty in Hin.
Defined.

(** The port parameter is 0.  Where the forwarder is created, the session
    of identity (ns1, p1, 0) is registered and the request is proxied;
    where [portforward.New] refuses the port, the answer is 500.  In
    neither case is it the 400 that C7 promises. *)
Lemma port_zero_is_accepted :
  let r := get_request "/forward" "namespace=ns1&pod=p1&port=0" in
  strconv_Atoi "0" = Some 0
  ∧ (let '(st, resp) := handlePortForward split_url split_query idle_world r emptyRegistry in
     Port <$> activeSessions st !! "ns1/p1:0" = Some 0 ∧ StatusCode resp = 200)
  ∧ (handlePortForward split_url split_query
       (answering_world (refusing_cluster "remote port must be > 0") 100 plain_response)
       r emptyRegistry).2
    = http_Error
        "Error al crear port-forward: error al crear port-forward: remote port must be > 0"
        500.
Proof. repeat split. Qed.

Lemma port_parameter_parsed_witness :
  handlePortForward split_url split_query idle_world
    (get_request "/forward" "namespace=ns1&pod=p1&port=http") emptyRegistry
  = (emptyRegistry, http_Error ("Puerto inválido: " +:+ "http") 400).
Proof.
  exact (proj1 (port_parameter_parsed split_url split_query idle_world
    (get_request "/forward" "namespace=ns1&pod=p1&port=http") emptyRegistry eq_refl)
    eq_refl).
Defined.

(** The path [/] reaches the handler of [/], contains no forward-like
    pattern, and is answered 200, where C9 promises 404. *)
Lemma root_path_is_not_404 :
  let r := get_request "/" EmptyString in
  is_forward_like (Path r) = false
  ∧ StatusCode (main_root split_url split_query idle_world r emptyRegistry).2 = 200.
Proof. repeat split. Qed.

Lemma root_handler_routes_witness :
  main_root split_url split_query idle_world (get_request "/favicon.ico" EmptyString)
    emptyRegistry
  = (emptyRegistry, http_Error "404 page not found" 404).
Proof.
  exact (proj2 (proj2 (root_handler_routes split_url split_query idle_world
    (get_request "/favicon.ico" EmptyString) emptyRegistry))
    ltac:(discriminate) eq_refl).
Defined.

Lemma establish_wait_outcomes_witness :
  getOrCreateSession_establish (ready_cluster 1%nat 40001 80) 100 "ns1" "p1" 80
  = Ok {| Namespace := "ns1"; Pod := "p1"; Port := 80; LocalPort := 40001;
          PF := Some 1%nat; LastUsed := 100 |}.
Proof.
  assert (Hfires : select_fires (Some (2 * Second)) None
                     (select_case (ready_cluster 1%nat 40001 80)) (2 * Second)).
  { apply fires_ready; [reflexivity | by vm_compute | discriminate]. }
  destruct (establish_wait_outcomes (ready_cluster 1%nat 40001 80) 100 "ns1" "p1" 80
              1%nat (Some (2 * Second)) None (2 * Second)
              eq_refl eq_refl eq_refl Hfires) as [_ [(_ & _ & Hready) | [H | H]]].
  - exact (Hready _ _ eq_refl).
  - destruct H as (err & Harm & _). discriminate Harm.
  - destruct H as (Harm & _). discriminate Harm.
Defined.

(** *** Two concurrent calls for one key *)

(** C2 fails on the code: two calls for the key [ns1/p1:80] start on an
    empty registry and both look the key up before either inserts.  Each
    of them establishes a tunnel, and they return sessions with different
    local ports; the registry keeps the session of the call that inserted
    last, and the port index keeps both ports.  When the first tunnel
    ends, its cleanup removes the registry entry of the second, which is
    still running. *)
Theorem concurrent_calls_establish_two_tunnels :
  let c0 := racing_call 1%nat 40001 100 in
  let c1 := racing_call 2%nat 40002 101 in
  let final :=
    run_schedule c0 c1 [false; true; false; true; false; false; true; true]
      {| registry := emptyRegistry; established := [] |} in
  call_key c0 = call_key c1
  ∧ (LocalPort <$> established (shared final)) = [40002; 40001]
  ∧ pc0 final = Returned (Ok {| Namespace := "ns1"; Pod := "p1"; Port := 80;
                                LocalPort := 40001; PF := Some 1%nat; LastUsed := 100 |})
  ∧ pc1 final = Returned (Ok {| Namespace := "ns1"; Pod := "p1"; Port := 80;
                                LocalPort := 40002; PF := Some 2%nat; LastUsed := 101 |})
  ∧ LocalPort <$> activeSessions (registry (shared final)) !! "ns1/p1:80" = Some 40002
  ∧ localPortToSession (registry (shared final)) !! 40001 = Some "ns1/p1:80"
  ∧ localPortToSession (registry (shared final)) !! 40002 = Some "ns1/p1:80"
  ∧ (let after := session_cleanup (call_key c0) 40001 (registry (shared final)) in
     activeSessions after !! "ns1/p1:80" = None
     ∧ localPortToSession after !! 40002 = Some "ns1/p1:80").
Proof. repeat split. Qed.

(** * Further properties of the program *)

(** ** What a call does to the registry *)

Lemma touch_lookup (key : string) (now : Z) (st : Registry) (k : string) :
  activeSessions (touch key now st) !! k
  = if decide (key = k) then set_LastUsed now <$> activeSessions st !! k
    else activeSessions st !! k.
Proof.
  unfold touch. simpl. case_decide as Hk.
  - subst k. apply lookup_alter_eq.
  - by apply lookup_alter_ne.
Qed.

Lemma touch_lookup_Some (key : string) (now : Z) (st : Registry) (k : string)
    (s' : PortForwardSession) :
  activeSessions (touch key now st) !! k = Some s' →
  ∃ s, activeSessions st !! k = Some s ∧ same_tunnel s s'
       ∧ (LastUsed s' = LastUsed s ∨ (k = key ∧ LastUsed s' = now)).
Proof.
  rewrite touch_lookup. case_decide as Hk.
  - subst k. destruct (activeSessions st !! key) as [s|]; [|done].
    intros [= <-]. exists s. split; [done|]. split; [done|]. by right.
  - intros Hin. exists s'. split; [done|]. split; [done|]. by left.
Qed.


(** The three ways [getOrCreateSession] ends. *)
Lemma getOrCreateSession_cases (c : Cluster) (now : Z)
    (sessionKey namespace pod : string) (port : Z) (st : Registry) :
  (∃ s, getOrCreateSession_lookup sessionKey st = Some s
        ∧ getOrCreateSession c now sessionKey namespace pod port st
          = (touch sessionKey now st, Ok (set_LastUsed now s)))
  ∨ (∃ s', getOrCreateSession_lookup sessionKey st = None
           ∧ getOrCreateSession_establish c now namespace pod port = Ok s'
           ∧ getOrCreateSession c now sessionKey namespace pod port st
             = (register_session sessionKey s' st, Ok s'))
  ∨ (∃ e, getOrCreateSession_lookup sessionKey st = None
          ∧ getOrCreateSession_establish c now namespace pod port = Err e
          ∧ getOrCreateSession c now sessionKey namespace pod port st = (st, Err e)).
Proof.
  unfold getOrCreateSession.
  destruct (getOrCreateSession_lookup sessionKey st) as [s|].
  - left. by exists s.
  - destruct (getOrCreateSession_establish c now namespace pod port) as [s'|e].
    + right. left. by exists s'.
    + right. right. by exists e.
Qed.

Section Registry_facts.

Variable url_Parse : string → option URL.
Variable URL_Query : string → Values.

(** The registry a request leaves: the one it found, with the session
    under one key stamped, or with one new session, registered under the
    key of its identity and stamped. *)
Lemma handlePortForward_registry (w : World) (r : Request) (st : Registry) :
  let st' := (handlePortForward url_Parse URL_Query w r st).1 in
  st' = st
  ∨ (∃ key, st' = touch key (time_Now w 0) st)
  ∨ (∃ key, st' = touch key (time_Now w 1) (touch key (time_Now w 0) st))
  ∨ (∃ key s',
       getOrCreateSession_lookup key st = None
       ∧ getOrCreateSession_establish (cluster w) (time_Now w 0)
           (Namespace s') (Pod s') (Port s') = Ok s'
       ∧ key = sessionKey_of (Namespace s') (Pod s') (Port s')
       ∧ st' = touch key (time_Now w 1) (register_session key s' st)).
Proof.
  unfold handlePortForward. cbv zeta.
  destruct (_ || _).
  - destruct (scan_sessions _) as [[key s]|]; simpl.
    + right. left. by exists key.
    + left. by destruct (is_forward_entry r).
  - destruct (strconv_Atoi _) as [port|]; [|by left].
    set (namespace := Values_Get (URL_Query (RawQuery r)) "namespace").
    set (pod := Values_Get (URL_Query (RawQuery r)) "pod").
    destruct (getOrCreateSession_cases (cluster w) (time_Now w 0)
                (sessionKey_of namespace pod port) namespace pod port st)
      as [(s & Hlook & ->) | [(s' & Hlook & Hest & ->) | (e & Hlook & Hest & ->)]];
      simpl.
    + right. right. left. by eexists.
    + right. right. right. exists (sessionKey_of namespace pod port), s'.
      destruct (establish_Ok _ _ _ _ _ _ Hest) as (_ & _ & -> & -> & ->).
      done.
    + by left.
Qed.

Lemma main_root_registry (w : World) (r : Request) (st : Registry) :
  (main_root url_Parse URL_Query w r st).1 = st
  ∨ (main_root url_Parse URL_Query w r st).1
    = (handlePortForward url_Parse URL_Query w r st).1.
Proof.
  unfold main_root.
  destruct (String.eqb (Path r) "/"); [by left|].
  destruct (is_forward_like (Path r)); [by right|by left].
Qed.

(** *** Invariants of the reachable registries *)

Lemma keyed_live_touch (key : string) (now : Z) (st : Registry) :
  keyed_live st → keyed_live (touch key now st).
Proof.
  intros Hinv k s' Hin.
  apply touch_lookup_Some in Hin as (s & Hin & (Hn & Hp & Hpo & _ & Hpf) & _).
  destruct (Hinv k s Hin) as [Hlive Hkey]. rewrite Hn, Hp, Hpo, Hpf. done.
Qed.

Lemma keyed_live_register (c : Cluster) (now : Z) (st : Registry)
    (s' : PortForwardSession) :
  keyed_live st →
  getOrCreateSession_establish c now (Namespace s') (Pod s') (Port s') = Ok s' →
  keyed_live (register_session (sessionKey_of (Namespace s') (Pod s') (Port s')) s' st).
Proof.
  intros Hinv Hest k s. unfold register_session. simpl.
  intros [[<- <-] | [_ Hin]]%lookup_insert_Some; [|by apply Hinv].
  split; [|done]. by apply establish_Ok in Hest as [Hlive _].
Qed.

Lemma keyed_live_handlePortForward (w : World) (r : Request) (st : Registry) :
  keyed_live st → keyed_live (handlePortForward url_Parse URL_Query w r st).1.
Proof.
  intros Hinv.
  destruct (handlePortForward_registry w r st)
    as [-> | [[key ->] | [[key ->] | (key & s' & _ & Hest & -> & ->)]]].
  - done.
  - by apply keyed_live_touch.
  - by do 2 apply keyed_live_touch.
  - apply keyed_live_touch. by eapply keyed_live_register.
Qed.

Lemma reachable_keyed_live (st : Registry) :
  reachable url_Parse URL_Query st → keyed_live st.
Proof.
  induction 1 as [|w r st _ IH _|w r st _ IH _|key port st _ IH].
  - intros key s Hin. simpl in Hin. by rewrite lookup_empty in Hin.
  - by apply keyed_live_handlePortForward.
  - destruct (main_root_registry w r st) as [-> | ->]; [done|].
    by apply keyed_live_handlePortForward.
  - intros k s Hin. simpl in Hin.
    apply lookup_delete_Some in Hin as [_ Hin]. by apply IH.
Qed.

(** A lookup that misses, in a registry whose sessions are all live, means
    that the key is not registered. *)
Lemma lookup_miss_absent (sessionKey : string) (st : Registry) :
  keyed_live st → getOrCreateSession_lookup sessionKey st = None →
  activeSessions st !! sessionKey = None.
Proof.
  intros Hinv. unfold getOrCreateSession_lookup.
  destruct (activeSessions st !! sessionKey) as [s|] eqn:Hin; [|done].
  destruct (Hinv _ _ Hin) as [Hlive _]. by destruct (PF s).
Qed.

Lemma identity_ok_handlePortForward (w : World) (r : Request) (st : Registry) :
  map_Forall (λ _ s, identity_ok s) (activeSessions st) →
  map_Forall (λ _ s, identity_ok s)
    (activeSessions (handlePortForward url_Parse URL_Query w r st).1).
Proof.
  intros Hinv.
  assert (Htouch : ∀ key now st0,
    map_Forall (λ _ s, identity_ok s) (activeSessions st0) →
    map_Forall (λ _ s, identity_ok s) (activeSessions (touch key now st0))).
  { intros key now st0 H0 k s' Hin.
    apply touch_lookup_Some in Hin as (s & Hin & (Hn & Hp & Hpo & _) & _).
    specialize (H0 k s Hin). unfold identity_ok in *. simpl in *.
    by rewrite Hn, Hp, Hpo. }
  unfold handlePortForward. cbv zeta.
  destruct (_ || _) eqn:Hmiss.
  - destruct (scan_sessions _) as [[key s]|]; cbn [fst].
    + by apply Htouch.
    + by destruct (is_forward_entry r).
  - destruct (strconv_Atoi _) as [port|] eqn:Hport; [|done].
    apply orb_false_iff in Hmiss as [[Hns Hpod]%orb_false_iff _].
    apply String.eqb_neq in Hns, Hpod. apply strconv_Atoi_range in Hport.
    destruct (getOrCreateSession_cases (cluster w) (time_Now w 0)
                (sessionKey_of (Values_Get (URL_Query (RawQuery r)) "namespace")
                   (Values_Get (URL_Query (RawQuery r)) "pod") port)
                (Values_Get (URL_Query (RawQuery r)) "namespace")
                (Values_Get (URL_Query (RawQuery r)) "pod") port st)
      as [(s & _ & ->) | [(s' & _ & Hest & ->) | (e & _ & _ & ->)]]; cbn [fst].
    + by do 2 apply Htouch.
    + apply Htouch. unfold register_session. cbn [activeSessions].
      apply map_Forall_insert_2; [|done].
      apply establish_Ok in Hest as (_ & _ & Hn & Hp & Hpo).
      unfold identity_ok. by rewrite Hn, Hp, Hpo.
    + done.
Qed.

Lemma reachable_identity_ok (st : Registry) :
  reachable url_Parse URL_Query st →
  map_Forall (λ _ s, identity_ok s) (activeSessions st).
Proof.
  induction 1 as [|w r st _ IH _|w r st _ IH _|key port st _ IH].
  - apply map_Forall_empty.
  - by apply identity_ok_handlePortForward.
  - destruct (main_root_registry w r st) as [-> | ->]; [done|].
    by apply identity_ok_handlePortForward.
  - by apply map_Forall_delete.
Qed.

(** X1: in every registry the handlers and the cleanup can reach, each
    session has a forwarder, is stored under the key made of its own
    namespace, pod and port, has a namespace and a pod that are not empty
    and a port within the range of [int], and carries a last-used time
    after the zero time. *)
Theorem reachable_sessions_wellformed (st : Registry) (key : string)
    (s : PortForwardSession) :
  reachable url_Parse URL_Query st →
  activeSessions st !! key = Some s →
  PF s ≠ None
  ∧ key = Namespace s +:+ "/" +:+ Pod s +:+ ":" +:+ fmt_d (Port s)
  ∧ Namespace s ≠ EmptyString ∧ Pod s ≠ EmptyString
  ∧ - 2 ^ 63 ≤ Port s ≤ 2 ^ 63 - 1
  ∧ zeroTime < LastUsed s.
Proof.
  intros Hreach Hin.
  destruct (reachable_keyed_live st Hreach key s Hin) as [Hlive Hkey].
  destruct (reachable_identity_ok st Hreach key s Hin) as (Hns & Hpod & Hport).
  split; [done|]. split; [done|]. split; [done|]. split; [done|]. split; [done|].
  by apply (reachable_stamped url_Parse URL_Query st Hreach key s).
Qed.


(** X3: a request changes the session under one key at most: there is a
    key such that the sessions under all other keys are what they were,
    last-used time included. *)
Theorem request_changes_one_session (w : World) (r : Request) (st : Registry) :
  ∃ key, ∀ k, k ≠ key →
    activeSessions (handlePortForward url_Parse URL_Query w r st).1 !! k
    = activeSessions st !! k.
Proof.
  destruct (handlePortForward_registry w r st)
    as [-> | [[key ->] | [[key ->] | (key & new & _ & _ & _ & ->)]]].
  - by exists EmptyString.
  - exists key. intros k Hne. rewrite touch_lookup. by case_decide.
  - exists key. intros k Hne. rewrite !touch_lookup. by case_decide.
  - exists key. intros k Hne. rewrite touch_lookup. case_decide; [done|].
    unfold register_session. simpl. by rewrite lookup_insert_ne.
Qed.

(** X4: last-used times never go back.  When the clock does not run
    behind the stamps of the registry and does not go back during the
    request, every session that is registered before and after the
    request has a last-used time at least as late as before. *)
Theorem LastUsed_never_decreases (w : World) (r : Request) (st : Registry)
    (key : string) (s s' : PortForwardSession) :
  (∀ k x, activeSessions st !! k = Some x → LastUsed x ≤ time_Now w 0) →
  time_Now w 0 ≤ time_Now w 1 →
  activeSessions st !! key = Some s →
  activeSessions (handlePortForward url_Parse URL_Query w r st).1 !! key = Some s' →
  LastUsed s ≤ LastUsed s'.
Proof.
  intros Hclock Hmono Hin.
  pose proof (Hclock key s Hin) as Hs.
  destruct (handlePortForward_registry w r st)
    as [-> | [[k ->] | [[k ->] | (k & new & _ & Hest & _ & ->)]]]; intros Hin'.
  - assert (s' = s) as -> by congruence. lia.
  - apply touch_lookup_Some in Hin' as (x & Hx & _ & Hlast).
    assert (x = s) as -> by congruence. lia.
  - apply touch_lookup_Some in Hin' as (x1 & Hx1 & _ & Hlast1).
    apply touch_lookup_Some in Hx1 as (x & Hx & _ & Hlast).
    assert (x = s) as -> by congruence. lia.
  - apply touch_lookup_Some in Hin' as (x1 & Hx1 & _ & Hlast1).
    unfold register_session in Hx1. simpl in Hx1.
    apply lookup_insert_Some in Hx1 as [[_ <-] | [_ Hx]].
    + apply establish_Ok in Hest as (_ & Hnew & _). lia.
    + assert (x1 = s) as -> by congruence. lia.
Qed.

(** *** Requests without parameters, and the pod behind the tunnel *)

(** X5: a request with a missing parameter never registers or removes a
    session and never touches the port index, and what it does is the
    same whatever cluster the world has: the cluster is not consulted. *)
Theorem fallback_never_registers (w : World) (r : Request) (st : Registry)
    (c : Cluster) :
  parameter_missing URL_Query r = true →
  dom (activeSessions (handlePortForward url_Parse URL_Query w r st).1)
  = dom (activeSessions st)
  ∧ localPortToSession (handlePortForward url_Parse URL_Query w r st).1
    = localPortToSession st
  ∧ handlePortForward url_Parse URL_Query (with_cluster c w) r st
    = handlePortForward url_Parse URL_Query w r st.
Proof.
  intros Hmiss. rewrite !handlePortForward_fallback by done.
  change (fallback_choice (with_cluster c w) st) with (fallback_choice w st).
  destruct (fallback_choice w st) as [[key s]|].
  - simpl. split; [apply dom_alter_L|]. done.
  - by destruct (is_forward_entry r).
Qed.

(** X6: the registry a request leaves does not depend on the pod behind
    the tunnel: whether the request to the pod can be built, whether the
    pod answers and what it answers change the response only. *)
Theorem upstream_never_changes_registry (w : World) (r : Request) (st : Registry)
    (newRequest : string → string → option string)
    (do : string → string → Header → string → result Response) :
  (handlePortForward url_Parse URL_Query (with_upstream newRequest do w) r st).1
  = (handlePortForward url_Parse URL_Query w r st).1.
Proof.
  unfold handlePortForward. cbv zeta.
  change (range_sessions (with_upstream newRequest do w)) with (range_sessions w).
  change (cluster (with_upstream newRequest do w)) with (cluster w).
  change (time_Now (with_upstream newRequest do w)) with (time_Now w).
  destruct (_ || _).
  - destruct (scan_sessions _) as [[key s]|]; [done|].
    by destruct (is_forward_entry r).
  - destruct (strconv_Atoi _) as [port|]; [|done].
    by destruct (getOrCreateSession _ _ _ _ _ _ _) as [st' [session|err]].
Qed.

(** X7: a pod that cannot be reached costs the session nothing.  For a
    request that names a registered live session, when [client.Do] fails
    the answer is 502 with the transport error, and the session stays
    registered, stamped with the time of the request. *)
Theorem transport_failure_keeps_session (w : World) (r : Request) (st : Registry)
    (port : Z) (s : PortForwardSession) (err : string) :
  let q := URL_Query (RawQuery r) in
  let key := Values_Get q "namespace" +:+ "/" +:+ Values_Get q "pod" +:+ ":"
             +:+ fmt_d port in
  parameter_missing URL_Query r = false →
  strconv_Atoi (Values_Get q "port") = Some port →
  activeSessions st !! key = Some s → PF s ≠ None →
  http_NewRequest w (Method r) (proxyHTTP_targetURL r (LocalPort s)) = None →
  client_Do w (Method r) (proxyHTTP_targetURL r (LocalPort s))
    (proxyHTTP_requestHeader (ReqHeader r)) (ReqBody r) = Err err →
  let '(st', resp) := handlePortForward url_Parse URL_Query w r st in
  resp = http_Error ("Error al realizar petición: " +:+ err) 502
  ∧ activeSessions st' !! key = Some (set_LastUsed (time_Now w 1) s).
Proof.
  intros q key Hpresent Hport Hin Hlive Hreq Hdo. subst q.
  unfold parameter_missing in Hpresent. unfold handlePortForward. cbv zeta.
  rewrite Hpresent, Hport.
  change (sessionKey_of (Values_Get (URL_Query (RawQuery r)) "namespace")
            (Values_Get (URL_Query (RawQuery r)) "pod") port) with key.
  unfold getOrCreateSession. rewrite (lookup_hit _ _ _ Hin Hlive).
  split.
  - unfold proxyHTTP. simpl LocalPort. by rewrite Hreq, Hdo.
  - rewrite !touch_lookup. rewrite !decide_True by done. by rewrite Hin.
Qed.

(** *** Establishing and ending a tunnel *)

(** What a successful establishment tells about the cluster. *)
Lemma establish_Ok_inv (c : Cluster) (now : Z) (namespace pod : string) (port : Z)
    (s : PortForwardSession) :
  getOrCreateSession_establish c now namespace pod port = Ok s →
  Pods_Get c namespace pod = None
  ∧ spdy_RoundTripperFor c = None
  ∧ (select_case c = CaseReady ∨ select_case c = CaseErr None)
  ∧ ∃ pf p ports,
      portforward_New c namespace pod ["0:" +:+ fmt_d port] = Ok pf
      ∧ pf_GetPorts c = Ok (p :: ports)
      ∧ s = {| Namespace := namespace; Pod := pod; Port := port;
               LocalPort := Local p; PF := Some pf; LastUsed := now |}.
Proof.
  unfold getOrCreateSession_establish, mbind, result_bind, wrap_err.
  destruct (Pods_Get c namespace pod); [done|].
  destruct (spdy_RoundTripperFor c); [done|].
  destruct (portforward_New c namespace pod _) as [pf|]; [|done].
  destruct (select_case c) as [|[e|]|]; try done;
    destruct (pf_GetPorts c) as [[|p ports]|]; try done;
    intros [= <-]; (split; [done|]); (split; [done|]);
    (split; [by auto|]); by exists pf, p, ports.
Qed.

(** X8: establishment returns a session exactly when every step
    succeeds: the pod is found, the transport is configured, the forwarder
    is created for the single port pair [0:<port>], the wait ends without
    an error and without a timeout, and [GetPorts] reports at least one
    port.  The session then has the identity asked for, the first
    reported local port, the new forwarder and the current time. *)
Theorem establish_Ok_iff (c : Cluster) (now : Z) (namespace pod : string) (port : Z)
    (s : PortForwardSession) :
  getOrCreateSession_establish c now namespace pod port = Ok s
  ↔ Pods_Get c namespace pod = None
    ∧ spdy_RoundTripperFor c = None
    ∧ (select_case c = CaseReady ∨ select_case c = CaseErr None)
    ∧ ∃ pf p ports,
        portforward_New c namespace pod ["0:" +:+ fmt_d port] = Ok pf
        ∧ pf_GetPorts c = Ok (p :: ports)
        ∧ s = {| Namespace := namespace; Pod := pod; Port := port;
                 LocalPort := Local p; PF := Some pf; LastUsed := now |}.
Proof.
  split; [apply establish_Ok_inv|].
  intros (Hpod & Hrt & Harm & pf & p & ports & Hnew & Hports & ->).
  rewrite (establish_after_wait c now namespace pod port pf Hpod Hrt Hnew Harm).
  by rewrite Hports.
Qed.

(** X9: an establishment that fails registers nothing.  For a request
    with all parameters whose key is not registered, a failure of any step
    of the establishment is answered 500 with the error, and the registry
    is the one the request found. *)
Theorem failed_establishment_registers_nothing (w : World) (r : Request)
    (st : Registry) (port : Z) (err : string) :
  let q := URL_Query (RawQuery r) in
  let namespace := Values_Get q "namespace" in
  let pod := Values_Get q "pod" in
  parameter_missing URL_Query r = false →
  strconv_Atoi (Values_Get q "port") = Some port →
  activeSessions st !! (namespace +:+ "/" +:+ pod +:+ ":" +:+ fmt_d port) = None →
  getOrCreateSession_establish (cluster w) (time_Now w 0) namespace pod port = Err err →
  handlePortForward url_Parse URL_Query w r st
  = (st, http_Error ("Error al crear port-forward: " +:+ err) 500).
Proof.
  intros q namespace pod Hpresent Hport Hin Hest. subst q namespace pod.
  unfold parameter_missing in Hpresent. unfold handlePortForward. cbv zeta.
  rewrite Hpresent, Hport.
  unfold getOrCreateSession, getOrCreateSession_lookup, sessionKey_of.
  by rewrite Hin, Hest.
Qed.

(** X10: no stale reuse.  Once the cleanup of a key has run, the next call
    for that key finds nothing to reuse, whatever was registered before:
    it goes through establishment, and returns a session only with the
    forwarder and the local port that this establishment yields. *)
Theorem cleanup_then_call_establishes_anew (c : Cluster) (now : Z)
    (sessionKey namespace pod : string) (port oldPort : Z) (st : Registry) :
  getOrCreateSession c now sessionKey namespace pod port
    (session_cleanup sessionKey oldPort st)
  = match getOrCreateSession_establish c now namespace pod port with
    | Ok session =>
        (register_session sessionKey session (session_cleanup sessionKey oldPort st),
         Ok session)
    | Err e => (session_cleanup sessionKey oldPort st, Err e)
    end
  ∧ ∀ st' session,
      getOrCreateSession c now sessionKey namespace pod port
        (session_cleanup sessionKey oldPort st) = (st', Ok session) →
      ∃ pf p ports,
        portforward_New c namespace pod ["0:" +:+ fmt_d port] = Ok pf
        ∧ pf_GetPorts c = Ok (p :: ports)
        ∧ PF session = Some pf ∧ LocalPort session = Local p
        ∧ activeSessions st' !! sessionKey = Some session
        ∧ localPortToSession st' !! Local p = Some sessionKey.
Proof.
  assert (Heq : getOrCreateSession c now sessionKey namespace pod port
    (session_cleanup sessionKey oldPort st)
  = match getOrCreateSession_establish c now namespace pod port with
    | Ok session =>
        (register_session sessionKey session (session_cleanup sessionKey oldPort st),
         Ok session)
    | Err e => (session_cleanup sessionKey oldPort st, Err e)
    end).
  { unfold getOrCreateSession, getOrCreateSession_lookup. simpl.
    by rewrite lookup_delete_eq. }
  split; [done|]. intros st' session. rewrite Heq.
  destruct (getOrCreateSession_establish c now namespace pod port) as [new|] eqn:Hest;
    [|done].
  intros [= <- <-].
  apply establish_Ok_inv in Hest as (_ & _ & _ & pf & p & ports & Hnew & Hports & ->).
  exists pf, p, ports. simpl. by rewrite !lookup_insert_eq.
Qed.

(** X11: registering a session under a free key and a free port and then
    cleaning that key and port up gives the registry back; a cleanup that
    runs a second time changes nothing. *)
Theorem register_cleanup_round_trip (sessionKey : string)
    (session : PortForwardSession) (st : Registry) :
  activeSessions st !! sessionKey = None →
  localPortToSession st !! LocalPort session = None →
  session_cleanup sessionKey (LocalPort session)
    (register_session sessionKey session st) = st
  ∧ ∀ localPort st0,
      session_cleanup sessionKey localPort (session_cleanup sessionKey localPort st0)
      = session_cleanup sessionKey localPort st0.
Proof.
  intros Hkey Hport. split.
  - unfold session_cleanup, register_session. simpl.
    rewrite !delete_insert_id by done. by destruct st.
  - intros localPort st0. unfold session_cleanup. simpl.
    rewrite !(delete_id (delete _ _)) by apply lookup_delete_eq. done.
Qed.

(** *** The two maps together *)




End Registry_facts.

(** ** Further properties of the reverse proxy *)

Lemma string_app_assoc (a b c : string) : (a +:+ b) +:+ c = a +:+ b +:+ c.
Proof. induction a as [|x a IH]; simpl; [done|]. by rewrite IH. Qed.

Section Proxy_more.

Variable url_Parse : string → option URL.

(** X13: the two rewritings undo each other.  A redirect of the pod to a
    path of its own, other than [/forward], is rewritten to a location
    that a following request maps back to that very path; a redirect to
    [/forward] comes back as a request for the root of the pod. *)
Theorem redirect_round_trip (location : string) :
  strings_HasPrefix location "/" = true →
  (location ≠ "/forward" →
   proxyHTTP_path (proxyHTTP_location url_Parse location) = location)
  ∧ (location = "/forward" →
     proxyHTTP_path (proxyHTTP_location url_Parse location) = "/").
Proof.
  intros Hpre. unfold proxyHTTP_location. rewrite Hpre.
  apply strings_HasPrefix_inv in Hpre as [rest ->]. split.
  - intros Hne. apply (proxyHTTP_path_prefixed rest). intros ->. by apply Hne.
  - by intros ->.
Qed.

(** X14: the path requested from the pod is never empty and starts with a
    slash whenever the path of the request does, so that the target always
    reads [http://localhost:<port>/...]. *)
Theorem rewritten_path_is_rooted (r : Request) (localPort : Z) :
  strings_HasPrefix (Path r) "/" = true →
  strings_HasPrefix (proxyHTTP_path (Path r)) "/" = true
  ∧ strings_HasPrefix (proxyHTTP_targetURL r localPort)
      ("http://localhost:" +:+ fmt_d localPort +:+ "/") = true.
Proof.
  intros Hroot.
  assert (Hpath : ∃ rest, proxyHTTP_path (Path r) = "/" +:+ rest).
  { unfold proxyHTTP_path.
    destruct (_ || _); [by exists EmptyString|].
    destruct (strings_HasPrefix (Path r) "/api/v1/extensions/pod-forward/") eqn:Hpre.
    - apply strings_HasPrefix_inv in Hpre as [rest ->].
      change ("/api/v1/extensions/pod-forward/" +:+ rest)
        with ("/api/v1/extensions/pod-forward" +:+ "/" +:+ rest).
      rewrite strings_TrimPrefix_app. by exists rest.
    - by apply strings_HasPrefix_inv in Hroot. }
  destruct Hpath as [rest Hpath]. split.
  - by rewrite Hpath.
  - unfold proxyHTTP_targetURL. rewrite Hpath.
    destruct (String.eqb (RawQuery r) EmptyString).
    + replace ("http://localhost:" +:+ fmt_d localPort +:+ "/" +:+ rest)
        with (("http://localhost:" +:+ fmt_d localPort +:+ "/") +:+ rest)
        by (by rewrite !string_app_assoc).
      apply strings_HasPrefix_app.
    + replace (("http://localhost:" +:+ fmt_d localPort +:+ "/" +:+ rest)
               +:+ "?" +:+ RawQuery r)
        with (("http://localhost:" +:+ fmt_d localPort +:+ "/")
              +:+ rest +:+ "?" +:+ RawQuery r)
        by (by rewrite !string_app_assoc).
      apply strings_HasPrefix_app.
Qed.

(** An entry without values leaves the destination as it was. *)
Lemma copyHeaders_empty_entry (skip : string → bool)
    (src : list (string * list string)) (dst : Header) (k : string) :
  NoDup src.*1 → (k, []) ∈ src → copyHeaders skip src dst !! k = dst !! k.
Proof.
  revert dst. induction src as [|[key values] src IH]; intros dst Hnd Hin.
  - by apply elem_of_nil in Hin.
  - apply NoDup_cons in Hnd as [Hfresh Hnd].
    apply elem_of_cons in Hin as [Heq|Hin].
    + injection Heq as <- <-.
      change (copyHeaders skip ((k, []) :: src) dst)
        with (copyHeaders skip src (if skip k then dst else dst)).
      rewrite copyHeaders_absent by done. by destruct (skip k).
    + assert (k ≠ key) as Hne.
      { intros ->. apply Hfresh. apply list_elem_of_fmap. by exists (key, []). }
      change (copyHeaders skip ((key, values) :: src) dst)
        with (copyHeaders skip src
                (if skip key then dst
                 else foldl (λ h' value, Header_Add h' key value) dst values)).
      rewrite IH by done. destruct (skip key); [done|].
      by apply add_values_lookup_ne.
Qed.

(** X15: the request sent to the pod never carries the [Connection],
    [Upgrade] and [Host] headers of the inbound request; every other
    header is passed on with all its values in their order, and a header
    without any value is not passed on. *)
Theorem request_header_filtered (h : Header) (k : string) :
  (k = "Connection" ∨ k = "Upgrade" ∨ k = "Host" →
   proxyHTTP_requestHeader h !! k = None)
  ∧ (k ≠ "Connection" → k ≠ "Upgrade" → k ≠ "Host" →
     proxyHTTP_requestHeader h !! k
     = match h !! k with
       | Some (v :: values) => Some (v :: values)
       | _ => None
       end).
Proof.
  unfold proxyHTTP_requestHeader. split.
  - intros Hk. rewrite copyHeaders_skipped; [done|].
    by destruct Hk as [-> | [-> | ->]].
  - intros H1%String.eqb_neq H2%String.eqb_neq H3%String.eqb_neq.
    assert (skip_request_header k = false) as Hskip.
    { unfold skip_request_header. by rewrite H1, H2, H3. }
    destruct (h !! k) as [[|v values]|] eqn:Hk.
    + rewrite copyHeaders_empty_entry; [done|apply NoDup_fst_map_to_list|].
      by apply elem_of_map_to_list.
    + rewrite (copyHeaders_copied _ _ _ k (v :: values)); try done.
      * apply NoDup_fst_map_to_list.
      * by apply elem_of_map_to_list.
    + rewrite copyHeaders_absent; [done|].
      intros [[k' values] [Heq Hin]]%list_elem_of_fmap.
      apply elem_of_map_to_list in Hin. simpl in Heq. subst k'. congruence.
Qed.

(** X16: the proxied response never carries the [Connection] and
    [Upgrade] headers of the pod's response; every header other than these
    and [Location] is passed on with all its values in their order, and a
    header without any value is not passed on. *)
Theorem response_header_filtered (h : Header) (k : string) :
  (k = "Connection" ∨ k = "Upgrade" → proxyHTTP_responseHeader url_Parse h !! k = None)
  ∧ (k ≠ "Connection" → k ≠ "Upgrade" → k ≠ "Location" →
     proxyHTTP_responseHeader url_Parse h !! k
     = match h !! k with
       | Some (v :: values) => Some (v :: values)
       | _ => None
       end).
Proof.
  unfold proxyHTTP_responseHeader, proxyHTTP_copyResponseHeader.
  set (w := if String.eqb (Header_Get h "Location") EmptyString then ∅
            else Header_Set ∅ "Location"
                   (proxyHTTP_location url_Parse (Header_Get h "Location"))).
  assert (Hw : k ≠ "Location" → w !! k = None).
  { intros Hne. subst w. destruct (String.eqb _ _); [done|].
    unfold Header_Set. by rewrite lookup_insert_ne. }
  split.
  - intros Hk. rewrite copyHeaders_skipped; [|by destruct Hk as [-> | ->]].
    apply Hw. by destruct Hk as [-> | ->].
  - intros H1%String.eqb_neq H2%String.eqb_neq H3.
    specialize (Hw H3). apply String.eqb_neq in H3.
    assert (skip_response_header k = false) as Hskip.
    { unfold skip_response_header. by rewrite H1, H2, H3. }
    destruct (h !! k) as [[|v values]|] eqn:Hk.
    + rewrite copyHeaders_empty_entry; [done|apply NoDup_fst_map_to_list|].
      by apply elem_of_map_to_list.
    + rewrite (copyHeaders_copied _ _ _ k (v :: values)); try done.
      * by rewrite Hw.
      * apply NoDup_fst_map_to_list.
      * by apply elem_of_map_to_list.
    + rewrite copyHeaders_absent; [done|].
      intros [[k' values] [Heq Hin]]%list_elem_of_fmap.
      apply elem_of_map_to_list in Hin. simpl in Heq. subst k'. congruence.
Qed.

End Proxy_more.

(** ** Further properties of the resolution *)

Lemma scan_first_step (seen : list (string * PortForwardSession))
    (acc : Z * option (string * PortForwardSession)) (kv : string * PortForwardSession) :
  scan_first_ok seen acc → scan_first_ok (seen ++ [kv]) (scan_step acc kv).
Proof.
  intros [Hmax Hsel]. unfold scan_step, Time_After.
  destruct (bool_decide (PF kv.2 ≠ None)) eqn:Hlive; simpl andb.
  - apply bool_decide_eq_true in Hlive.
    destruct (acc.1 <? LastUsed kv.2) eqn:Hlt.
    + apply Z.ltb_lt in Hlt. split; simpl.
      * intros x [Hin | ->%list_elem_of_singleton]%elem_of_app Hl; [|lia].
        specialize (Hmax x Hin Hl). lia.
      * split; [done|]. exists seen, []. split; [done|].
        intros x Hin Hl. specialize (Hmax x Hin Hl). lia.
    + apply Z.ltb_ge in Hlt. split.
      * intros x [Hin | ->%list_elem_of_singleton]%elem_of_app Hl; [by apply Hmax|done].
      * destruct (acc.2) as [sel|]; [|done].
        destruct Hsel as (He & before & after & -> & Hbefore). split; [done|].
        exists before, (after ++ [kv]). split; [|done].
        by rewrite <- app_assoc.
  - apply bool_decide_eq_false in Hlive. split.
    + intros x [Hin | ->%list_elem_of_singleton]%elem_of_app Hl; [by apply Hmax|done].
    + destruct (acc.2) as [sel|]; [|done].
      destruct Hsel as (He & before & after & -> & Hbefore). split; [done|].
      exists before, (after ++ [kv]). split; [|done].
      by rewrite <- app_assoc.
Qed.

Lemma scan_first_fold (l seen : list (string * PortForwardSession))
    (acc : Z * option (string * PortForwardSession)) :
  scan_first_ok seen acc → scan_first_ok (seen ++ l) (foldl scan_step acc l).
Proof.
  revert seen acc. induction l as [|kv l IH]; intros seen acc Hacc; simpl.
  - by rewrite app_nil_r.
  - replace (seen ++ kv :: l) with ((seen ++ [kv]) ++ l)
      by (by rewrite <- app_assoc).
    apply IH. by apply scan_first_step.
Qed.

(** X17: among the live sessions used last at the same latest time, the
    scan selects the one that [range] yields first: every live session
    before the selected one was used strictly earlier, every live session
    after it not later. *)
Theorem scan_takes_first_latest (l : list (string * PortForwardSession))
    (kv : string * PortForwardSession) :
  scan_sessions l = Some kv →
  ∃ before after,
    l = before ++ kv :: after
    ∧ (∀ x, x ∈ before → PF x.2 ≠ None → LastUsed x.2 < LastUsed kv.2)
    ∧ (∀ x, x ∈ after → PF x.2 ≠ None → LastUsed x.2 ≤ LastUsed kv.2).
Proof.
  unfold scan_sessions. intros Hsel.
  destruct (scan_first_fold l [] (zeroTime, None)) as [Hmax Hacc].
  { split; [|done]. intros x Hin. by apply elem_of_nil in Hin. }
  rewrite Hsel in Hacc. destruct Hacc as (He & before & after & Hl & Hbefore).
  simpl in Hl. exists before, after. split; [done|]. split; [done|].
  intros x Hin Hlive. rewrite <- He. apply Hmax; [|done].
  simpl. rewrite Hl. apply elem_of_app. right. by apply elem_of_cons; right.
Qed.

Section Resolution_facts.

Variable url_Parse : string → option URL.
Variable URL_Query : string → Values.

(** A live session used strictly later than every other live session is
    the one fallback selects. *)
Lemma unique_latest_is_chosen (w : World) (st : Registry) (key : string)
    (s : PortForwardSession) :
  range_ok w →
  activeSessions st !! key = Some s → PF s ≠ None → zeroTime < LastUsed s →
  (∀ k x, k ≠ key → activeSessions st !! k = Some x → LastUsed x < LastUsed s) →
  fallback_choice w st = Some (key, s).
Proof.
  intros Hw Hin Hlive Hpos Hlater. unfold fallback_choice.
  destruct (scan_sessions _) as [[k x]|] eqn:Hsel.
  - apply scan_sessions_Some in Hsel as (Hkx & _ & Hmax).
    apply (range_sessions_elem w st k x Hw) in Hkx.
    destruct (decide (k = key)) as [->|Hne]; [congruence|].
    specialize (Hlater k x Hne Hkx).
    specialize (Hmax (key, s) (proj2 (range_sessions_elem w st key s Hw) Hin) Hlive).
    simpl in Hmax. lia.
  - pose proof (scan_sessions_None _ (key, s) Hsel
      (proj2 (range_sessions_elem w st key s Hw) Hin) Hlive) as Hle.
    simpl in Hle. lia.
Qed.

(** X18: when no two live sessions carry the same last-used time, the
    session fallback selects in a reachable registry does not depend on the
    order in which [range] yields the sessions. *)
Theorem fallback_ignores_order (w1 w2 : World) (st : Registry) :
  range_ok w1 → range_ok w2 → reachable url_Parse URL_Query st →
  (∀ k1 k2 s1 s2, activeSessions st !! k1 = Some s1 → activeSessions st !! k2 = Some s2 →
                  LastUsed s1 = LastUsed s2 → k1 = k2) →
  fallback_choice w1 st = fallback_choice w2 st.
Proof.
  intros Hw1 Hw2 Hreach Hdistinct.
  pose proof (reachable_stamped _ _ _ Hreach) as Hst.
  unfold fallback_choice.
  destruct (scan_sessions (range_sessions w1 _)) as [[k1 s1]|] eqn:H1;
    destruct (scan_sessions (range_sessions w2 _)) as [[k2 s2]|] eqn:H2.
  - apply scan_sessions_Some in H1 as (Hin1 & Hlive1 & Hmax1).
    apply scan_sessions_Some in H2 as (Hin2 & Hlive2 & Hmax2).
    pose proof (proj1 (range_sessions_elem w1 st k1 s1 Hw1) Hin1) as Hs1.
    pose proof (proj1 (range_sessions_elem w2 st k2 s2 Hw2) Hin2) as Hs2.
    specialize (Hmax1 (k2, s2) (proj2 (range_sessions_elem w1 st k2 s2 Hw1) Hs2) Hlive2).
    specialize (Hmax2 (k1, s1) (proj2 (range_sessions_elem w2 st k1 s1 Hw2) Hs1) Hlive1).
    simpl in *.
    assert (k1 = k2) as -> by (eapply Hdistinct; [done|done|lia]).
    congruence.
  - apply scan_sessions_Some in H1 as (Hin1 & Hlive1 & _).
    pose proof (proj1 (range_sessions_elem w1 st k1 s1 Hw1) Hin1) as Hs1.
    pose proof (scan_sessions_None _ (k1, s1) H2
      (proj2 (range_sessions_elem w2 st k1 s1 Hw2) Hs1) Hlive1) as Hle.
    specialize (Hst k1 s1 Hs1). simpl in *. lia.
  - apply scan_sessions_Some in H2 as (Hin2 & Hlive2 & _).
    pose proof (proj1 (range_sessions_elem w2 st k2 s2 Hw2) Hin2) as Hs2.
    pose proof (scan_sessions_None _ (k2, s2) H1
      (proj2 (range_sessions_elem w1 st k2 s2 Hw1) Hs2) Hlive2) as Hle.
    specialize (Hst k2 s2 Hs2). simpl in *. lia.
  - done.
Qed.

(** X19: a request with all parameters goes to the session registered
    under its own key, whatever other sessions exist and however recently
    they were used; the cluster is not consulted, and the session is
    stamped with the time of the request. *)
Theorem explicit_request_uses_its_session (w : World) (r : Request) (st : Registry)
    (port : Z) (s : PortForwardSession) (c : Cluster) :
  let q := URL_Query (RawQuery r) in
  let key := Values_Get q "namespace" +:+ "/" +:+ Values_Get q "pod" +:+ ":"
             +:+ fmt_d port in
  parameter_missing URL_Query r = false →
  strconv_Atoi (Values_Get q "port") = Some port →
  activeSessions st !! key = Some s → PF s ≠ None →
  handlePortForward url_Parse URL_Query w r st
  = (touch key (time_Now w 1) (touch key (time_Now w 0) st),
     proxyHTTP url_Parse w r (LocalPort s))
  ∧ handlePortForward url_Parse URL_Query (with_cluster c w) r st
    = handlePortForward url_Parse URL_Query w r st.
Proof.
  intros q key Hpresent Hport Hin Hlive. subst q.
  unfold parameter_missing in Hpresent. unfold handlePortForward. cbv zeta.
  rewrite Hpresent, Hport.
  change (sessionKey_of (Values_Get (URL_Query (RawQuery r)) "namespace")
            (Values_Get (URL_Query (RawQuery r)) "pod") port) with key.
  unfold getOrCreateSession. by rewrite (lookup_hit _ _ _ Hin Hlive).
Qed.

(** X20: navigation stays on the session just opened.  After a request
    with all parameters has left its session registered, at a time later
    than every other stamp, a following request without parameters is
    proxied to the local port of that session, whatever the order of the
    scan. *)
Theorem explicit_then_fallback (w w' : World) (r r' : Request) (st : Registry)
    (port : Z) (s : PortForwardSession) :
  let q := URL_Query (RawQuery r) in
  let key := Values_Get q "namespace" +:+ "/" +:+ Values_Get q "pod" +:+ ":"
             +:+ fmt_d port in
  let st' := (handlePortForward url_Parse URL_Query w r st).1 in
  reachable url_Parse URL_Query st →
  parameter_missing URL_Query r = false →
  strconv_Atoi (Values_Get q "port") = Some port →
  activeSessions st' !! key = Some s →
  zeroTime < time_Now w 1 →
  (∀ k x, activeSessions st !! k = Some x → LastUsed x < time_Now w 1) →
  range_ok w' → parameter_missing URL_Query r' = true →
  handlePortForward url_Parse URL_Query w' r' st'
  = (touch key (time_Now w' 0) st', proxyHTTP url_Parse w' r' (LocalPort s)).
Proof.
  intros q key st' Hreach Hpresent Hport Hin Hpos Hclock Hw' Hmiss.
  pose proof (reachable_keyed_live _ _ _ Hreach) as Hkl.
  assert (Hshape : LastUsed s = time_Now w 1 ∧ PF s ≠ None
    ∧ ∀ k x, k ≠ key → activeSessions st' !! k = Some x → LastUsed x < time_Now w 1).
  { subst st' q. revert Hin.
    unfold parameter_missing in Hpresent. unfold handlePortForward. cbv zeta.
    rewrite Hpresent, Hport.
    change (sessionKey_of (Values_Get (URL_Query (RawQuery r)) "namespace")
              (Values_Get (URL_Query (RawQuery r)) "pod") port) with key.
    destruct (getOrCreateSession_cases (cluster w) (time_Now w 0) key
                (Values_Get (URL_Query (RawQuery r)) "namespace")
                (Values_Get (URL_Query (RawQuery r)) "pod") port st)
      as [(s0 & Hlook & ->) | [(s1 & Hlook & Hest & ->) | (e & Hlook & Hest & ->)]];
      cbn [fst].
    - apply lookup_hit_inv in Hlook as [Hs0 Hlive].
      rewrite !touch_lookup, !decide_True, Hs0 by done. intros [= <-].
      split; [done|]. split; [done|].
      intros k x Hne. rewrite !touch_lookup, !decide_False by done. apply Hclock.
    - apply establish_Ok in Hest as (Hlive & _).
      rewrite touch_lookup, decide_True by done.
      unfold register_session. cbn [activeSessions].
      rewrite lookup_insert_eq. intros [= <-].
      split; [done|]. split; [done|].
      intros k x Hne. rewrite touch_lookup, decide_False by done.
      cbn [activeSessions]. rewrite lookup_insert_ne by done. apply Hclock.
    - intros Hin. apply (lookup_miss_absent _ _ Hkl) in Hlook. congruence. }
  destruct Hshape as (Hlast & Hlive & Hothers).
  rewrite handlePortForward_fallback by done.
  rewrite (unique_latest_is_chosen w' st' key s); try done.
  - lia.
  - intros k x Hne Hx. rewrite Hlast. by eapply Hothers.
Qed.

End Resolution_facts.

(** ** Session keys *)

Lemma has_byte_app (c : ascii) (a b : string) :
  has_byte c (a +:+ b) = has_byte c a || has_byte c b.
Proof.
  induction a as [|x a IH]; simpl; [done|]. by rewrite IH, orb_assoc.
Qed.

(** Two strings cut at the first occurrence of a byte. *)
Lemma cut_first_unique (c : ascii) (a a' x y : string) :
  has_byte c a = false → has_byte c a' = false →
  a +:+ String c x = a' +:+ String c y → a = a' ∧ x = y.
Proof.
  revert a'. induction a as [|d a IH]; intros [|d' a'] Ha Ha' Heq; simpl in *.
  - by injection Heq as ->.
  - injection Heq as <- _. by rewrite Ascii.eqb_refl in Ha'.
  - injection Heq as -> _. by rewrite Ascii.eqb_refl in Ha.
  - injection Heq as -> Heq.
    apply orb_false_iff in Ha as [_ Ha]. apply orb_false_iff in Ha' as [_ Ha'].
    destruct (IH a' Ha Ha' Heq) as [-> ->]. done.
Qed.

(** Two strings cut at the last occurrence of a byte. *)
Lemma cut_last_unique (c : ascii) (a a' x y : string) :
  has_byte c x = false → has_byte c y = false →
  a +:+ String c x = a' +:+ String c y → a = a' ∧ x = y.
Proof.
  revert a'. induction a as [|d a IH]; intros [|d' a'] Hx Hy Heq; simpl in *.
  - by injection Heq as ->.
  - injection Heq as _ ->.
    rewrite has_byte_app in Hx. simpl in Hx.
    rewrite Ascii.eqb_refl in Hx. simpl in Hx. by rewrite orb_true_r in Hx.
  - injection Heq as _ <-.
    rewrite has_byte_app in Hy. simpl in Hy.
    rewrite Ascii.eqb_refl in Hy. simpl in Hy. by rewrite orb_true_r in Hy.
  - injection Heq as -> Heq. destruct (IH a' Hx Hy Heq) as [-> ->]. done.
Qed.

Lemma uint_digits_no_colon (d : Decimal.uint) :
  has_byte ":" (NilEmpty.string_of_uint d) = false.
Proof. induction d; simpl; done. Qed.

Lemma fmt_d_no_colon (n : Z) : has_byte ":" (fmt_d n) = false.
Proof.
  unfold fmt_d. destruct (Z.to_int n) as [d|d]; simpl.
  - destruct d; try done; apply (uint_digits_no_colon (_ d)).
  - destruct d; try done; apply (uint_digits_no_colon (_ d)).
Qed.

Lemma fmt_d_inj (n m : Z) : fmt_d n = fmt_d m → n = m.
Proof.
  unfold fmt_d. intros Heq. apply DecimalZ.to_int_inj.
  assert (Hnn : ∀ z, Z.to_int z ≠ Decimal.Pos Decimal.Nil
                     ∧ Z.to_int z ≠ Decimal.Neg Decimal.Nil).
  { intros [|p|p]; split; try done; simpl; intros [= Hp];
      by apply DecimalPos.Unsigned.to_uint_nonnil in Hp. }
  destruct (Hnn n) as [Hn1 Hn2]. destruct (Hnn m) as [Hm1 Hm2].
  pose proof (NilZero.isi _ Hn1 Hn2) as Hn. pose proof (NilZero.isi _ Hm1 Hm2) as Hm.
  rewrite Heq in Hn. congruence.
Qed.

(** X21: identities do not share a key.  For namespaces without a slash,
    which is what the cluster accepts as a namespace, two identities with
    the same session key have the same namespace, pod and port. *)
Theorem session_keys_are_distinct (namespace namespace' pod pod' : string)
    (port port' : Z) :
  has_byte "/" namespace = false → has_byte "/" namespace' = false →
  sessionKey_of namespace pod port = sessionKey_of namespace' pod' port' →
  namespace = namespace' ∧ pod = pod' ∧ port = port'.
Proof.
  intros Hns Hns' Heq. unfold sessionKey_of in Heq.
  change (namespace +:+ String "/" (pod +:+ ":" +:+ fmt_d port)
          = namespace' +:+ String "/" (pod' +:+ ":" +:+ fmt_d port')) in Heq.
  apply cut_first_unique in Heq as [-> Heq]; [|done|done].
  change (pod +:+ String ":" (fmt_d port) = pod' +:+ String ":" (fmt_d port')) in Heq.
  apply cut_last_unique in Heq as [-> Heq]; [|apply fmt_d_no_colon..].
  by apply fmt_d_inj in Heq as ->.
Qed.

(** Without that condition keys do collide: the namespace a/b with the pod
    c and the namespace a with the pod b/c have one key. *)
Lemma session_key_collision :
  sessionKey_of "a/b" "c" 80 = sessionKey_of "a" "b/c" 80.
Proof. reflexivity. Qed.

(** ** Ports as text *)

Ltac digit_step :=
  cbn [NilEmpty.string_of_uint digits_value Pos.of_uint_acc Pos.of_uint];
  match goal with
  | |- context [digit_value ?c] =>
      let v := eval vm_compute in (digit_value c) in
      change (digit_value c) with v
  end; cbv iota beta.

Lemma digits_value_acc (d : Decimal.uint) (acc : positive) :
  digits_value (Z.pos acc) (NilEmpty.string_of_uint d)
  = Some (Z.pos (Pos.of_uint_acc d acc)).
Proof.
  revert acc. induction d; intros acc; [reflexivity|..];
    digit_step; rewrite <- IHd; f_equal; lia.
Qed.

Lemma digits_value_uint (d : Decimal.uint) :
  digits_value 0 (NilEmpty.string_of_uint d) = Some (Z.of_N (Pos.of_uint d)).
Proof.
  induction d; [reflexivity|..]; digit_step;
    [exact IHd | apply (digits_value_acc d)..].
Qed.

(** [strconv.Atoi] on a string that does not start with a sign. *)
Lemma strconv_Atoi_unsigned (c : ascii) (rest : string) :
  c ≠ "-"%char → c ≠ "+"%char →
  strconv_Atoi (String c rest)
  = match digits_value 0 (String c rest) with
    | Some n => if (minInt <=? n) && (n <=? maxInt) then Some n else None
    | None => None
    end.
Proof.
  intros Hm Hp. unfold strconv_Atoi.
  destruct c as [[] [] [] [] [] [] [] []]; try reflexivity; congruence.
Qed.

(** The text [%d] prints for an [int] is read back by [strconv.Atoi]. *)
Lemma strconv_Atoi_fmt_d (n : Z) :
  minInt ≤ n ≤ maxInt → strconv_Atoi (fmt_d n) = Some n.
Proof.
  intros Hrange. unfold fmt_d. destruct n as [|p|p]; simpl Z.to_int.
  - reflexivity.
  - unfold NilZero.string_of_int, NilZero.string_of_uint.
    pose proof (DecimalPos.Unsigned.to_uint_nonnil p) as Hnn.
    pose proof (DecimalPos.Unsigned.of_to p) as Hof.
    pose proof (digits_value_uint (Pos.to_uint p)) as Hd. rewrite Hof in Hd.
    destruct (Pos.to_uint p) as [|d|d|d|d|d|d|d|d|d|d]; [congruence|..];
      cbn [NilEmpty.string_of_uint] in Hd |- *;
      (rewrite strconv_Atoi_unsigned by discriminate);
      rewrite Hd; simpl Z.of_N;
      (destruct ((minInt <=? Z.pos p) && (Z.pos p <=? maxInt)) eqn:Hr; [reflexivity|]);
      apply andb_false_iff in Hr as [Hr|Hr]; lia.
  - unfold NilZero.string_of_int, NilZero.string_of_uint.
    pose proof (DecimalPos.Unsigned.to_uint_nonnil p) as Hnn.
    pose proof (DecimalPos.Unsigned.of_to p) as Hof.
    pose proof (digits_value_uint (Pos.to_uint p)) as Hd. rewrite Hof in Hd.
    unfold strconv_Atoi.
    destruct (Pos.to_uint p) as [|d|d|d|d|d|d|d|d|d|d]; [congruence|..];
      cbn [NilEmpty.string_of_uint] in Hd |- *;
      rewrite Hd; simpl Z.of_N; cbv zeta;
      (destruct ((minInt <=? - Z.pos p) && (- Z.pos p <=? maxInt)) eqn:Hr; [reflexivity|]);
      apply andb_false_iff in Hr as [Hr|Hr]; lia.
Qed.

Section Addressing.

Variable url_Parse : string → option URL.
Variable URL_Query : string → Values.

(** X22: every registered session can be named again.  In a reachable
    registry, a request whose parameters are the namespace and the pod of
    a registered session and its port printed in decimal is proxied to the
    local port of that very session, without any establishment. *)
Theorem registered_session_is_addressable (w : World) (r : Request) (st : Registry)
    (key : string) (s : PortForwardSession) :
  let q := URL_Query (RawQuery r) in
  reachable url_Parse URL_Query st →
  activeSessions st !! key = Some s →
  Values_Get q "namespace" = Namespace s →
  Values_Get q "pod" = Pod s →
  Values_Get q "port" = fmt_d (Port s) →
  handlePortForward url_Parse URL_Query w r st
  = (touch key (time_Now w 1) (touch key (time_Now w 0) st),
     proxyHTTP url_Parse w r (LocalPort s)).
Proof.
  intros q Hreach Hin Hns Hpod Hport. subst q.
  destruct (reachable_keyed_live _ _ _ Hreach key s Hin) as [Hlive Hkey].
  destruct (reachable_identity_ok _ _ _ Hreach key s Hin) as (Hns' & Hpod' & Hrange).
  pose proof (strconv_Atoi_fmt_d (Port s) Hrange) as Hparse.
  unfold handlePortForward. cbv zeta. rewrite Hns, Hpod, Hport, Hparse.
  apply String.eqb_neq in Hns', Hpod'. rewrite Hns', Hpod'.
  assert (String.eqb (fmt_d (Port s)) EmptyString = false) as ->.
  { destruct (fmt_d (Port s)); [discriminate Hparse|done]. }
  simpl orb. cbv iota. rewrite <- Hkey.
  unfold getOrCreateSession. by rewrite (lookup_hit _ _ _ Hin Hlive).
Qed.

End Addressing.

(** ** The further properties on concrete inputs *)

Lemma two_sessions_lookup (k : string) (x : PortForwardSession) :
  activeSessions two_sessions !! k = Some x →
  (k = "ns1/p1:80" ∧ x = session_a) ∨ (k = "ns2/p2:3000" ∧ x = session_b).
Proof.
  change (activeSessions two_sessions)
    with (<["ns1/p1:80" := session_a]>
            (<["ns2/p2:3000" := session_b]> (∅ : gmap string PortForwardSession))).
  intros [[<- <-] | [_ Hin]]%lookup_insert_Some; [by left|].
  apply lookup_insert_Some in Hin as [[<- <-] | [_ Hin]]; [by right|].
  by rewrite lookup_empty in Hin.
Defined.


Lemma reachable_sessions_wellformed_witness :
  "ns1/p1:80" = Namespace session_a +:+ "/" +:+ Pod session_a +:+ ":"
                +:+ fmt_d (Port session_a)
  ∧ zeroTime < LastUsed session_a.
Proof.
  destruct (reachable_sessions_wellformed split_url split_query two_sessions
              "ns1/p1:80" session_a two_sessions_reachable eq_refl)
    as (_ & Hkey & _ & _ & _ & Hstamp).
  by split.
Defined.


Lemma LastUsed_never_decreases_witness :
  LastUsed session_b ≤ LastUsed (set_LastUsed 300 session_b).
Proof.
  apply (LastUsed_never_decreases split_url split_query reversing_world
    (get_request "/api/v1/extensions/pod-forward/d/home" EmptyString) two_sessions
    "ns2/p2:3000" session_b (set_LastUsed 300 session_b)).
  - intros k x [[_ ->] | [_ ->]]%two_sessions_lookup; by vm_compute.
  - by vm_compute.
  - reflexivity.
  - reflexivity.
Defined.

Lemma fallback_never_registers_witness :
  localPortToSession
    (handlePortForward split_url split_query reversing_world
       (get_request "/api/v1/extensions/pod-forward/d/home" EmptyString) two_sessions).1
  = localPortToSession two_sessions.
Proof.
  exact (proj1 (proj2 (fallback_never_registers split_url split_query reversing_world
    (get_request "/api/v1/extensions/pod-forward/d/home" EmptyString) two_sessions
    (refusing_cluster "no cluster") eq_refl))).
Defined.

Lemma transport_failure_keeps_session_witness :
  (handlePortForward split_url split_query unreachable_world
     (get_request "/forward" "namespace=ns1&pod=p1&port=80") two_sessions).2
  = http_Error ("Error al realizar petición: " +:+ "connection refused") 502.
Proof.
  exact (proj1 (transport_failure_keeps_session split_url split_query unreachable_world
    (get_request "/forward" "namespace=ns1&pod=p1&port=80") two_sessions 80 session_a
    "connection refused" eq_refl eq_refl eq_refl ltac:(discriminate) eq_refl eq_refl)).
Defined.

Lemma failed_establishment_registers_nothing_witness :
  handlePortForward split_url split_query
    (answering_world (refusing_cluster "remote port must be > 0") 100 plain_response)
    (get_request "/forward" "namespace=ns1&pod=p1&port=0") emptyRegistry
  = (emptyRegistry,
     http_Error ("Error al crear port-forward: "
                 +:+ "error al crear port-forward: remote port must be > 0") 500).
Proof.
  exact (failed_establishment_registers_nothing split_url split_query
    (answering_world (refusing_cluster "remote port must be > 0") 100 plain_response)
    (get_request "/forward" "namespace=ns1&pod=p1&port=0") emptyRegistry 0
    "error al crear port-forward: remote port must be > 0"
    eq_refl eq_refl eq_refl eq_refl).
Defined.

Lemma register_cleanup_round_trip_witness :
  session_cleanup "ns1/p1:80" 40001 one_session = emptyRegistry.
Proof.
  exact (proj1 (register_cleanup_round_trip "ns1/p1:80" session_a emptyRegistry
    eq_refl eq_refl)).
Defined.


Lemma redirect_round_trip_witness :
  proxyHTTP_path (proxyHTTP_location split_url "/login") = "/login".
Proof.
  exact (proj1 (redirect_round_trip split_url "/login" eq_refl) ltac:(discriminate)).
Defined.

Lemma rewritten_path_is_rooted_witness :
  strings_HasPrefix
    (proxyHTTP_targetURL (get_request "/api/v1/extensions/pod-forward/d/home" "orgId=1")
       40001)
    ("http://localhost:" +:+ fmt_d 40001 +:+ "/") = true.
Proof.
  exact (proj2 (rewritten_path_is_rooted
    (get_request "/api/v1/extensions/pod-forward/d/home" "orgId=1") 40001 eq_refl)).
Defined.

Lemma scan_takes_first_latest_witness :
  ∃ before after,
    [("first", session_a); ("second", session_a)]
    = before ++ ("first", session_a) :: after
    ∧ (∀ x, x ∈ before → PF x.2 ≠ None → LastUsed x.2 < LastUsed session_a)
    ∧ (∀ x, x ∈ after → PF x.2 ≠ None → LastUsed x.2 ≤ LastUsed session_a).
Proof.
  exact (scan_takes_first_latest [("first", session_a); ("second", session_a)]
    ("first", session_a) eq_refl).
Defined.

Lemma fallback_ignores_order_witness :
  fallback_choice reversing_world two_sessions = fallback_choice idle_world two_sessions.
Proof.
  apply (fallback_ignores_order split_url split_query reversing_world idle_world
    two_sessions reversing_world_range_ok idle_world_range_ok two_sessions_reachable).
  intros k1 k2 s1 s2 [[-> ->] | [-> ->]]%two_sessions_lookup
    [[-> ->] | [-> ->]]%two_sessions_lookup Heq;
    first [reflexivity | discriminate Heq].
Defined.

Lemma explicit_request_uses_its_session_witness :
  (handlePortForward split_url split_query idle_world
     (get_request "/forward" "namespace=ns1&pod=p1&port=80") two_sessions).2
  = proxyHTTP split_url idle_world
      (get_request "/forward" "namespace=ns1&pod=p1&port=80") 40001.
Proof.
  exact (f_equal snd (proj1 (explicit_request_uses_its_session split_url split_query
    idle_world (get_request "/forward" "namespace=ns1&pod=p1&port=80") two_sessions
    80 session_a (refusing_cluster "no cluster")
    eq_refl eq_refl eq_refl ltac:(discriminate)))).
Defined.

Lemma explicit_then_fallback_witness :
  let opened :=
    (handlePortForward split_url split_query first_world
       (get_request "/forward" "namespace=ns1&pod=p1&port=80") emptyRegistry).1 in
  handlePortForward split_url split_query reversing_world
    (get_request "/api/v1/extensions/pod-forward/d/home" EmptyString) opened
  = (touch "ns1/p1:80" 300 opened,
     proxyHTTP split_url reversing_world
       (get_request "/api/v1/extensions/pod-forward/d/home" EmptyString) 40001).
Proof.
  refine (explicit_then_fallback split_url split_query first_world reversing_world
    (get_request "/forward" "namespace=ns1&pod=p1&port=80")
    (get_request "/api/v1/extensions/pod-forward/d/home" EmptyString)
    emptyRegistry 80 session_a
    (reach_start split_url split_query) eq_refl eq_refl eq_refl eq_refl _
    reversing_world_range_ok eq_refl).
  intros k x Hin. simpl in Hin. by rewrite lookup_empty in Hin.
Defined.

Lemma session_keys_are_distinct_witness :
  "ns1" = "ns1" ∧ "p1" = "p1" ∧ 80 = 80.
Proof.
  exact (session_keys_are_distinct "ns1" "ns1" "p1" "p1" 80 80 eq_refl eq_refl eq_refl).
Defined.

Lemma registered_session_is_addressable_witness :
  (handlePortForward split_url split_query idle_world
     (get_request "/forward" "namespace=ns2&pod=p2&port=3000") two_sessions).2
  = proxyHTTP split_url idle_world
      (get_request "/forward" "namespace=ns2&pod=p2&port=3000") 40002.
Proof.
  exact (f_equal snd (registered_session_is_addressable split_url split_query
    idle_world (get_request "/forward" "namespace=ns2&pod=p2&port=3000") two_sessions
    "ns2/p2:3000" session_b two_sessions_reachable eq_refl eq_refl eq_refl eq_refl)).
Defined.

Lemma serial_calls_share_tunnel_witness :
  getOrCreateSession (refusing_cluster "no cluster") 200 "ns1/p1:80" "ns1" "p1" 80
    one_session
  = (touch "ns1/p1:80" 200 one_session, Ok (set_LastUsed 200 session_a)).
Proof.
  exact (serial_calls_share_tunnel (ready_cluster 1%nat 40001 80)
    (refusing_cluster "no cluster") 100 200 "ns1/p1:80" "ns1" "p1" 80
    emptyRegistry one_session session_a eq_refl).
Defined.
